(** * Vibe Check Movies: the session server (server/index.js)

    A shallow embedding of the Express/better-sqlite3 server: the
    [sanitize] helper, the two SQLite tables, the request handlers, the
    recommendation synthesizer [generateResults], and the cooperative
    scheduling of the two asynchronous handlers (submit and close).

    JavaScript strings are modelled as [string]; every [ascii] stands for
    one UTF-16 code unit below 256.  The runtime's [JSON.parse] and
    [JSON.stringify] are an interface ([JSONRuntime]); the handlers are
    written against the interface, and a reference codec for a fragment
    of JSON instantiates it for the examples. *)

From Stdlib Require Import Ascii String ZArith Lia Bool.
From stdpp Require Import base option list gmap strings pretty.

Set Warnings "-register-all".
Local Open Scope string_scope.

(** ** JavaScript string primitives used by the server *)

Module JsString.

(** [str.replace(/c/g, r)] for a one-character pattern [c] and a
    replacement text [r] without [$] patterns. *)
Fixpoint replace_all (c : ascii) (r : string) (s : string) : string :=
  match s with
  | EmptyString => EmptyString
  | String a s' =>
      if Ascii.eqb a c then r ++ replace_all c r s'
      else String a (replace_all c r s')
  end.

(** WhiteSpace and LineTerminator code units below 256: TAB, LF, VT, FF,
    CR, SPACE and NO-BREAK SPACE. *)
Definition is_space (a : ascii) : bool :=
  let n := N_of_ascii a in
  ((9 <=? n)%N && (n <=? 13)%N) || (n =? 32)%N || (n =? 160)%N.

Fixpoint trim_start (s : string) : string :=
  match s with
  | EmptyString => EmptyString
  | String a s' => if is_space a then trim_start s' else s
  end.

Fixpoint trim_end (s : string) : string :=
  match s with
  | EmptyString => EmptyString
  | String a s' =>
      match trim_end s' with
      | EmptyString => if is_space a then EmptyString else String a EmptyString
      | t => String a t
      end
  end.

(** [str.trim()] *)
Definition trim (s : string) : string := trim_end (trim_start s).

(** [str.slice(0, n)] *)
Fixpoint slice0 (n : nat) (s : string) : string :=
  match n, s with
  | S k, String a s' => String a (slice0 k s')
  | _, _ => EmptyString
  end.

Definition first_char (s : string) : option ascii :=
  match s with
  | EmptyString => None
  | String a _ => Some a
  end.

Fixpoint last_char (s : string) : option ascii :=
  match s with
  | EmptyString => None
  | String a EmptyString => Some a
  | String _ s' => last_char s'
  end.

Fixpoint all_chars (P : ascii -> bool) (s : string) : bool :=
  match s with
  | EmptyString => true
  | String a s' => P a && all_chars P s'
  end.

End JsString.
Import JsString.

(** ** JSON values *)

(** The values [express.json()] puts in a request body and [JSON.parse]
    returns.  Numbers are kept to the integers. *)
Inductive json : Type :=
  | JNull
  | JBool (b : bool)
  | JNum (n : Z)
  | JStr (s : string)
  | JArr (items : list json)
  | JObj (fields : list (string * json)).

(** A property read from a request body: [None] is [undefined]. *)
Definition jsvalue := option json.

(** The runtime's [JSON] object.  [JSON_parse] returns [None] where
    [JSON.parse] throws a SyntaxError. *)
Class JSONRuntime := {
  JSON_parse : string -> option json;
  JSON_stringify : json -> string
}.

(** ** sanitize (server/index.js, lines 67-78) *)

Definition quote_char : ascii := "034"%char.
Definition apos_char : ascii := "039"%char.

Definition escape_entities (str : string) : string :=
  replace_all apos_char "&#x27;"
    (replace_all quote_char "&quot;"
       (replace_all ">"%char "&gt;"
          (replace_all "<"%char "&lt;"
             (replace_all "&"%char "&amp;" str)))).

Definition sanitize_string (str : string) : string :=
  slice0 50 (trim (escape_entities str)).

Definition sanitize (str : jsvalue) : string :=
  match str with
  | Some (JStr s) => sanitize_string s
  | _ => ""
  end.

(** *** What the specification asks of a sanitized name *)

Definition entity_tails : list string :=
  [ "amp;"; "lt;"; "gt;"; "quot;"; "#x27;" ].

Definition is_markup_char (a : ascii) : bool :=
  Ascii.eqb a "<"%char || Ascii.eqb a ">"%char
  || Ascii.eqb a quote_char || Ascii.eqb a apos_char.

(** Every ampersand opens one of the five entities. *)
Fixpoint amps_escaped (s : string) : bool :=
  match s with
  | EmptyString => true
  | String a s' =>
      (if Ascii.eqb a "&"%char
       then existsb (fun t => String.prefix t s') entity_tails
       else true)
      && amps_escaped s'
  end.

Definition no_markup (s : string) : bool :=
  all_chars (fun a => negb (is_markup_char a)) s.

Definition no_raw_special (s : string) : bool :=
  no_markup s && amps_escaped s.

Definition not_space (o : option ascii) : bool :=
  match o with
  | Some a => negb (is_space a)
  | None => true
  end.

Definition no_leading_space (s : string) : bool := not_space (first_char s).
Definition no_trailing_space (s : string) : bool := not_space (last_char s).

Definition repeat_char (n : nat) (a : ascii) : string :=
  Nat.iter n (String a) EmptyString.

(** ** The two tables (server/index.js, lines 83-103) *)

Inductive status : Type := lobby | collecting | complete.

Global Instance status_eq_dec : EqDecision status.
Proof. solve_decision. Defined.

(** The position of a status on the path lobby, collecting, complete. *)
Definition rank (s : status) : nat :=
  match s with
  | lobby => 0
  | collecting => 1
  | complete => 2
  end.

Module Session.
Record t : Type := mk {
  status : status;
  host_name : string;
  results : option string;
  created_at : Z
}.
End Session.

Module Participant.
Record t : Type := mk {
  id : string;
  session_id : string;
  name : string;
  answers : option string;
  completed : bool;
  created_at : Z
}.
End Participant.

(** [sessions] is keyed by its primary key; [participants] keeps the rows
    in insertion order, the order in which SELECT returns them. *)
Record store : Type := mkStore {
  sessions : gmap string Session.t;
  participants : list Participant.t
}.

Definition empty_store : store := mkStore ∅ [].

(** *** The SQL statements of the server *)

(** SELECT * FROM sessions WHERE id = ? *)
Definition select_session (id : string) (db : store) : option Session.t :=
  sessions db !! id.

(** SELECT ... FROM participants WHERE session_id = ? *)
Definition select_participants (id : string) (db : store) : list Participant.t :=
  filter (λ p, Participant.session_id p = id) (participants db).

(** SELECT * FROM participants WHERE session_id = ? AND completed = 1 *)
Definition select_completed (id : string) (db : store) : list Participant.t :=
  filter (λ p, Participant.session_id p = id ∧ Participant.completed p = true)
    (participants db).

(** SELECT * FROM participants WHERE id = ? AND session_id = ? *)
Definition select_participant (participantId id : string) (db : store)
  : option Participant.t :=
  find (λ p, bool_decide (Participant.id p = participantId
                          ∧ Participant.session_id p = id))
    (participants db).

(** INSERT INTO sessions (id, host_name) VALUES (?, ?); [None] is the
    SqliteError of a primary-key conflict. *)
Definition insert_session (id hostName : string) (now : Z) (db : store)
  : option store :=
  match sessions db !! id with
  | Some _ => None
  | None =>
      Some (mkStore (<[id := Session.mk lobby hostName None now]> (sessions db))
              (participants db))
  end.

(** INSERT INTO participants (id, session_id, name) VALUES (?, ?, ?).  Both
    callers insert under a session they have just inserted or selected. *)
Definition insert_participant (participantId id name : string) (now : Z)
    (db : store) : option store :=
  if existsb (λ p, bool_decide (Participant.id p = participantId)) (participants db)
  then None
  else Some (mkStore (sessions db)
               (participants db
                  ++ [Participant.mk participantId id name None false now])).

(** UPDATE sessions SET status = ? WHERE id = ? *)
Definition update_status (st : status) (id : string) (db : store) : store :=
  mkStore
    (alter (λ s, Session.mk st (Session.host_name s) (Session.results s)
                   (Session.created_at s)) id (sessions db))
    (participants db).

(** UPDATE sessions SET results = ?, status = ? WHERE id = ? *)
Definition update_results (res : string) (st : status) (id : string) (db : store)
  : store :=
  mkStore
    (alter (λ s, Session.mk st (Session.host_name s) (Some res)
                   (Session.created_at s)) id (sessions db))
    (participants db).

Definition record_answers (text : option string) (p : Participant.t)
  : Participant.t :=
  Participant.mk (Participant.id p) (Participant.session_id p)
    (Participant.name p) text true (Participant.created_at p).

(** UPDATE participants SET answers = ?, completed = 1 WHERE id = ? *)
Definition update_answers (text : option string) (participantId : string)
    (db : store) : store :=
  mkStore (sessions db)
    (map (λ p, if bool_decide (Participant.id p = participantId)
               then record_answers text p else p)
       (participants db)).

Definition expired (cutoff : Z) (db : store) (id : string) : bool :=
  match sessions db !! id with
  | Some s => bool_decide (Session.created_at s < cutoff)%Z
  | None => false
  end.

(** The two DELETE statements of [cleanupOldSessions]. *)
Definition delete_old (cutoff : Z) (db : store) : store :=
  mkStore
    (filter (λ kv, ¬ (Session.created_at kv.2 < cutoff)%Z) (sessions db))
    (filter (λ p, expired cutoff db (Participant.session_id p) = false)
       (participants db)).

(** ** Effects and handler outcomes *)

(** The four socket.io events, each sent to the room [session:<id>]. *)
Inductive event : Type :=
  | participant_joined (name : string)
  | questions_ready
  | answer_submitted (participantName : string)
  | results_ready (results : json).

(** The two handlers that call [generateResults], each suspended at its
    [await] until [callAI] answers. *)
Inductive waiter : Type :=
  | SubmitWaits
  | CloseWaits.

(** What a handler does to the outside world: an emit to a session's
    room, or a call of [generateResults] (noted with the calling
    handler, the session it works on, and the rows it passes). *)
Inductive effect : Type :=
  | Emit (room : string) (e : event)
  | Synthesize (by_handler : waiter) (id : string) (input : list Participant.t).

Record server : Type := mkServer {
  db : store;
  effects : list effect
}.

Definition set_db (d : store) (sv : server) : server := mkServer d (effects sv).
Definition emit (room : string) (e : event) (sv : server) : server :=
  mkServer (db sv) (effects sv ++ [Emit room e]).
Definition note_synthesis (w : waiter) (id : string)
    (input : list Participant.t) (sv : server) : server :=
  mkServer (db sv) (effects sv ++ [Synthesize w id input]).

(** The roster rows of the two session responses: id, name, completed. *)
Definition roster_row (p : Participant.t) : string * string * bool :=
  (Participant.id p, Participant.name p, Participant.completed p).

(** The rows of the results response: name, answers, completed. *)
Definition answer_row (p : Participant.t) : string * option string * bool :=
  (Participant.name p, Participant.answers p, Participant.completed p).

Inductive response : Type :=
  | Error (code : nat) (error : string)
  | Created (id link participantId : string)
  | SessionInfo (session : Session.t) (roster : list (string * string * bool))
      (completedCount : nat)
  | Joined (id : string) (session : Session.t)
      (roster : list (string * string * bool))
  | Mode
  | Submitted (allCompleted : bool)
  | ResultsInfo (session : Session.t)
      (rows : list (string * option string * bool)) (results : option json)
  | Closed (results : json).

(** A handler suspended at its [await]: the session it works on and the
    [participantData] that [generateResults] built before calling out. *)
Record pending : Type := mkPending {
  waiting : waiter;
  on_session : string;
  data : list (string * json)
}.

(** How the synchronous part of a handler ends: with its response, with
    an exception (no response of its own, and nothing more written), or
    suspended at [await generateResults(...)]. *)
Inductive outcome : Type :=
  | Respond (r : response)
  | Throw
  | Await (k : pending).

(** What [callAI] returns: [null] (no key, a failed call, or falsy
    content), the content text, or truthy content that is not text. *)
Inductive completion : Type :=
  | NoContent
  | Text (s : string)
  | NonText.

(** ** The recommendation synthesizer (server/index.js, lines 249-317) *)

(** The suffix after the first [c]. *)
Fixpoint after_first (c : ascii) (s : string) : option string :=
  match s with
  | EmptyString => None
  | String a s' => if Ascii.eqb a c then Some s' else after_first c s'
  end.

(** The longest prefix that ends in [c]. *)
Fixpoint through_last (c : ascii) (s : string) : option string :=
  match s with
  | EmptyString => None
  | String a s' =>
      match through_last c s' with
      | Some t => Some (String a t)
      | None => if Ascii.eqb a c then Some (String a EmptyString) else None
      end
  end.

(** [result.match(/\{[\s\S]*\}/)]: from the first opening brace to the
    last closing brace after it. *)
Definition match_object (result : string) : option string :=
  rest ← after_first "{"%char result;
  body ← through_last "}"%char rest;
  Some (String "{"%char body).

(** [a || d] on a nullable text. *)
Definition or_text (a : option string) (d : string) : string :=
  match a with
  | None | Some EmptyString => d
  | Some s => s
  end.

Definition writeup_unavailable (p : string * json) : json :=
  JObj [ ("name", JStr p.1);
         ("taste_summary", JStr "Analysis unavailable");
         ("personal_recs", JArr []) ].

Definition result_unavailable (participantData : list (string * json)) : json :=
  JObj [ ("group_summary",
          JStr "Could not generate recommendations. Check server configuration.");
         ("recommendations", JArr []);
         ("individual_writeups", JArr (map writeup_unavailable participantData)) ].

Definition result_pending : json :=
  JObj [ ("group_summary", JStr "Analysis pending");
         ("recommendations", JArr []);
         ("individual_writeups", JArr []) ].

Definition result_generated : json :=
  JObj [ ("group_summary", JStr "Analysis generated");
         ("recommendations", JArr []);
         ("individual_writeups", JArr []) ].

(** Reading a key of an object, as the clients of a result do. *)
Definition field (k : string) (v : json) : option json :=
  match v with
  | JObj fields => snd <$> find (λ kv, String.eqb kv.1 k) fields
  | _ => None
  end.

Section Handlers.
Context `{JSONRuntime}.

(** Lines 251-254; [None] when a [JSON.parse] throws. *)
Definition participantData (ps : list Participant.t)
  : option (list (string * json)) :=
  mapM (λ p, v ← JSON_parse (or_text (Participant.answers p) "{}");
             Some (Participant.name p, v)) ps.

(** Lines 295-316: what [generateResults] returns once [callAI] has
    answered. *)
Definition interpret (participantData : list (string * json))
    (result : completion) : json :=
  match result with
  | NoContent | Text EmptyString => result_unavailable participantData
  | NonText => result_generated
  | Text s =>
      match match_object s with
      | None => result_pending
      | Some jsonMatch =>
          match JSON_parse jsonMatch with
          | Some v => v
          | None => result_generated
          end
      end
  end.

(** [generateResults(participants)] when [callAI] answers [result];
    [None] when it rejects. *)
Definition generateResults (ps : list Participant.t) (result : completion)
  : option json :=
  d ← participantData ps; Some (interpret d result).

(** *** The request handlers (server/index.js, lines 331-455) *)

(** POST /api/session; [id] and [participantId] are the two [nanoid(8)]
    draws, [now] is [unixepoch()]. *)
Definition createSession (hostName : jsvalue) (id participantId : string)
    (now : Z) (sv : server) : server * outcome :=
  let hostName := sanitize hostName in
  if bool_decide (hostName = "") then
    (sv, Respond (Error 400 "Name is required"))
  else
    match insert_session id hostName now (db sv) with
    | None => (sv, Throw)
    | Some db1 =>
        match insert_participant participantId id hostName now db1 with
        | None => (set_db db1 sv, Throw)
        | Some db2 =>
            (set_db db2 sv, Respond (Created id ("/session/" ++ id) participantId))
        end
    end.

(** GET /api/session/:id *)
Definition getSession (id : string) (sv : server) : server * outcome :=
  match select_session id (db sv) with
  | None => (sv, Respond (Error 404 "Session not found"))
  | Some session =>
      let ps := select_participants id (db sv) in
      let completedCount := length (filter (λ p, Participant.completed p = true) ps) in
      (sv, Respond (SessionInfo session (map roster_row ps) completedCount))
  end.

(** POST /api/session/:id/join *)
Definition joinSession (id : string) (name : jsvalue) (participantId : string)
    (now : Z) (sv : server) : server * outcome :=
  let name := sanitize name in
  if bool_decide (name = "") then
    (sv, Respond (Error 400 "Name is required"))
  else
    match select_session id (db sv) with
    | None => (sv, Respond (Error 404 "Session not found"))
    | Some session =>
        match insert_participant participantId id name now (db sv) with
        | None => (sv, Throw)
        | Some db1 =>
            let sv1 := emit id (participant_joined name) (set_db db1 sv) in
            (sv1, Respond (Joined participantId session
                             (map roster_row (select_participants id db1))))
        end
    end.

(** POST /api/session/:id/generate *)
Definition startQuiz (id : string) (sv : server) : server * outcome :=
  match select_session id (db sv) with
  | None => (sv, Respond (Error 404 "Session not found"))
  | Some _ =>
      let sv1 := set_db (update_status collecting id (db sv)) sv in
      (emit id questions_ready sv1, Respond Mode)
  end.

(** POST /api/session/:id/submit, up to its [await] (lines 395-418).
    The body is taken to carry both properties: [participantId] a
    string and [answers] a JSON value. *)
Definition submitAnswers (id participantId : string) (answers : json)
    (sv : server) : server * outcome :=
  match select_participant participantId id (db sv) with
  | None => (sv, Respond (Error 404 "Participant not found"))
  | Some participant =>
      let db1 :=
        update_answers (Some (JSON_stringify answers)) participantId (db sv) in
      let session := select_session id db1 in
      let ps := select_participants id db1 in
      let allCompleted := forallb Participant.completed ps in
      let db2 := if allCompleted then update_status complete id db1 else db1 in
      let sv2 :=
        emit id (answer_submitted (Participant.name participant)) (set_db db2 sv) in
      if allCompleted then
        match session with
        | None => (sv2, Throw)
        | Some s =>
            if bool_decide (Session.status s ≠ complete) then
              let sv3 := note_synthesis SubmitWaits id ps sv2 in
              match participantData ps with
              | None => (sv3, Throw)
              | Some d => (sv3, Await (mkPending SubmitWaits id d))
              end
            else (sv2, Respond (Submitted allCompleted))
        end
      else (sv2, Respond (Submitted allCompleted))
  end.

(** GET /api/session/:id/results *)
Definition getResults (id : string) (sv : server) : server * outcome :=
  match select_session id (db sv) with
  | None => (sv, Respond (Error 404 "Session not found"))
  | Some session =>
      let rows := map answer_row (select_participants id (db sv)) in
      match Session.results session with
      | None | Some EmptyString => (sv, Respond (ResultsInfo session rows None))
      | Some text =>
          match JSON_parse text with
          | None => (sv, Throw)
          | Some v => (sv, Respond (ResultsInfo session rows (Some v)))
          end
      end
  end.

(** POST /api/session/:id/close, up to its [await] (lines 439-451). *)
Definition closeEarly (id : string) (sv : server) : server * outcome :=
  match select_session id (db sv) with
  | None => (sv, Respond (Error 404 "Session not found"))
  | Some _ =>
      let ps := select_completed id (db sv) in
      if bool_decide (length ps = 0) then
        (sv, Respond (Error 400 "No completed participants"))
      else
        let sv1 := note_synthesis CloseWaits id ps sv in
        match participantData ps with
        | None => (sv1, Throw)
        | Some d => (sv1, Await (mkPending CloseWaits id d))
        end
  end.

(** The rest of a suspended handler once [callAI] has answered [result]
    (lines 418-423 and 451-454). *)
Definition resume (k : pending) (result : completion) (sv : server)
  : server * response :=
  let results := interpret (data k) result in
  let db1 := update_results (JSON_stringify results) complete (on_session k) (db sv) in
  let sv1 := emit (on_session k) (results_ready results) (set_db db1 sv) in
  (sv1, match waiting k with
        | SubmitWaits => Submitted true
        | CloseWaits => Closed results
        end).

(** [cleanupOldSessions] at clock [now] (seconds). *)
Definition cleanupOldSessions (now : Z) (sv : server) : server :=
  set_db (delete_old (now - 24 * 60 * 60)%Z (db sv)) sv.

(** A handler run with nothing else scheduled in between: its [await]
    is answered with [result] at once. *)
Definition settle (result : completion) (r : server * outcome)
  : server * outcome :=
  match r with
  | (sv, Await k) => let '(sv', resp) := resume k result sv in (sv', Respond resp)
  | _ => r
  end.

(** *** The server as a cooperatively scheduled system *)

Inductive request : Type :=
  | CreateSession (hostName : jsvalue) (id participantId : string) (now : Z)
  | GetSession (id : string)
  | JoinSession (id : string) (name : jsvalue) (participantId : string) (now : Z)
  | StartQuiz (id : string)
  | SubmitAnswers (id participantId : string) (answers : json)
  | GetResults (id : string)
  | CloseEarly (id : string).

Definition handle (r : request) : server → server * outcome :=
  match r with
  | CreateSession hostName id participantId now =>
      createSession hostName id participantId now
  | GetSession id => getSession id
  | JoinSession id name participantId now => joinSession id name participantId now
  | StartQuiz id => startQuiz id
  | SubmitAnswers id participantId answers => submitAnswers id participantId answers
  | GetResults id => getResults id
  | CloseEarly id => closeEarly id
  end.

(** One turn of the event loop: a request handler runs up to its
    response or its [await]; the hourly sweep runs; or the [i]-th
    suspended handler is resumed with the answer of [callAI]. *)
Inductive action : Type :=
  | Handle (r : request)
  | Sweep (now : Z)
  | Resume (i : nat) (result : completion).

Record system : Type := mkSystem {
  srv : server;
  suspended : list pending
}.

Definition step (a : action) (s : system) : system :=
  match a with
  | Handle r =>
      match handle r (srv s) with
      | (sv, Await k) => mkSystem sv (suspended s ++ [k])
      | (sv, _) => mkSystem sv (suspended s)
      end
  | Sweep now => mkSystem (cleanupOldSessions now (srv s)) (suspended s)
  | Resume i result =>
      match suspended s !! i with
      | None => s
      | Some k => mkSystem (resume k result (srv s)).1 (delete i (suspended s))
      end
  end.

Definition run (tr : list action) (s : system) : system :=
  foldl (λ s a, step a s) s tr.

Definition boot : system := mkSystem (mkServer empty_store []) [].

End Handlers.

(** ** A reference codec for a fragment of JSON

    Integers, strings with the short escapes, arrays and objects whose
    keys are distinct.  It instantiates [JSONRuntime] in the examples;
    the theorems hold for every runtime. *)

Module JsonFragment.

Definition is_json_space (a : ascii) : bool :=
  let n := N_of_ascii a in
  (n =? 32)%N || (n =? 9)%N || (n =? 10)%N || (n =? 13)%N.

Fixpoint skip_space (s : string) : string :=
  match s with
  | String a s' => if is_json_space a then skip_space s' else s
  | EmptyString => EmptyString
  end.

Definition backslash : ascii := "092"%char.

Definition escape_char (a : ascii) : string :=
  if Ascii.eqb a quote_char then String backslash (String quote_char "")
  else if Ascii.eqb a backslash then String backslash (String backslash "")
  else if Ascii.eqb a "010"%char then String backslash "n"
  else if Ascii.eqb a "013"%char then String backslash "r"
  else if Ascii.eqb a "009"%char then String backslash "t"
  else String a "".

Fixpoint escape_text (s : string) : string :=
  match s with
  | EmptyString => EmptyString
  | String a s' => escape_char a ++ escape_text s'
  end.

Definition quoted (s : string) : string :=
  String quote_char (escape_text s ++ String quote_char "").

Fixpoint join (sep : string) (l : list string) : string :=
  match l with
  | [] => ""
  | [x] => x
  | x :: l' => x ++ sep ++ join sep l'
  end.

Fixpoint stringify (v : json) : string :=
  match v with
  | JNull => "null"
  | JBool true => "true"
  | JBool false => "false"
  | JNum n => pretty n
  | JStr s => quoted s
  | JArr items => "[" ++ join "," (map stringify items) ++ "]"
  | JObj fields =>
      "{" ++ join "," (map (λ kv, quoted kv.1 ++ ":" ++ stringify kv.2) fields) ++ "}"
  end.

(** The text of a string literal after its opening quote, and the rest
    of the input after its closing quote. *)
Fixpoint read_text (s : string) : option (string * string) :=
  match s with
  | EmptyString => None
  | String a s' =>
      if Ascii.eqb a quote_char then Some ("", s')
      else if Ascii.eqb a backslash then
        match s' with
        | String b s'' =>
            let unescaped :=
              if Ascii.eqb b "n"%char then Some "010"%char
              else if Ascii.eqb b "r"%char then Some "013"%char
              else if Ascii.eqb b "t"%char then Some "009"%char
              else if Ascii.eqb b quote_char || Ascii.eqb b backslash
                      || Ascii.eqb b "/"%char then Some b
              else None in
            c ← unescaped;
            '(t, rest) ← read_text s'';
            Some (String c t, rest)
        | EmptyString => None
        end
      else if (N_of_ascii a <? 32)%N then None
      else '(t, rest) ← read_text s'; Some (String a t, rest)
  end.

Definition digit (a : ascii) : option Z :=
  let n := N_of_ascii a in
  if (48 <=? n)%N && (n <=? 57)%N then Some (Z.of_N n - 48)%Z else None.

Fixpoint read_digits (acc : Z) (s : string) : Z * string :=
  match s with
  | String a s' =>
      match digit a with
      | Some d => read_digits (10 * acc + d)%Z s'
      | None => (acc, s)
      end
  | EmptyString => (acc, s)
  end.

Definition read_natural (s : string) : option (Z * string) :=
  match s with
  | String a s' =>
      match digit a with
      | Some 0%Z => Some (0%Z, s')
      | Some d => Some (read_digits d s')
      | None => None
      end
  | EmptyString => None
  end.

Definition read_literal (lit : string) (v : json) (s : string)
  : option (json * string) :=
  if String.prefix lit s
  then Some (v, String.substring (String.length lit)
                  (String.length s - String.length lit) s)
  else None.

Fixpoint read_value (fuel : nat) (s : string) : option (json * string) :=
  match fuel with
  | O => None
  | S fuel' =>
      match skip_space s with
      | EmptyString => None
      | String a s' =>
          if Ascii.eqb a "{"%char then
            match skip_space s' with
            | String b s'' =>
                if Ascii.eqb b "}"%char then Some (JObj [], s'')
                else '(fields, rest) ← read_members fuel' s'; Some (JObj fields, rest)
            | EmptyString => None
            end
          else if Ascii.eqb a "["%char then
            match skip_space s' with
            | String b s'' =>
                if Ascii.eqb b "]"%char then Some (JArr [], s'')
                else '(items, rest) ← read_elements fuel' s'; Some (JArr items, rest)
            | EmptyString => None
            end
          else if Ascii.eqb a quote_char then
            '(t, rest) ← read_text s'; Some (JStr t, rest)
          else if Ascii.eqb a "-"%char then
            '(n, rest) ← read_natural s'; Some (JNum (- n), rest)
          else if Ascii.eqb a "t"%char then read_literal "true" (JBool true) (String a s')
          else if Ascii.eqb a "f"%char then read_literal "false" (JBool false) (String a s')
          else if Ascii.eqb a "n"%char then read_literal "null" JNull (String a s')
          else '(n, rest) ← read_natural (String a s'); Some (JNum n, rest)
      end
  end
with read_elements (fuel : nat) (s : string) : option (list json * string) :=
  match fuel with
  | O => None
  | S fuel' =>
      '(v, rest) ← read_value fuel' s;
      match skip_space rest with
      | String a rest' =>
          if Ascii.eqb a ","%char then
            '(vs, rest'') ← read_elements fuel' rest'; Some (v :: vs, rest'')
          else if Ascii.eqb a "]"%char then Some ([v], rest')
          else None
      | EmptyString => None
      end
  end
with read_members (fuel : nat) (s : string)
  : option (list (string * json) * string) :=
  match fuel with
  | O => None
  | S fuel' =>
      match skip_space s with
      | String q s' =>
          if Ascii.eqb q quote_char then
            '(k, rest) ← read_text s';
            match skip_space rest with
            | String c rest' =>
                if Ascii.eqb c ":"%char then
                  '(v, rest'') ← read_value fuel' rest';
                  match skip_space rest'' with
                  | String a r =>
                      if Ascii.eqb a ","%char then
                        '(kvs, r') ← read_members fuel' r; Some ((k, v) :: kvs, r')
                      else if Ascii.eqb a "}"%char then Some ([(k, v)], r)
                      else None
                  | EmptyString => None
                  end
                else None
            | EmptyString => None
            end
          else None
      | EmptyString => None
      end
  end.

Definition parse (s : string) : option json :=
  '(v, rest) ← read_value (S (String.length s)) s;
  match skip_space rest with
  | EmptyString => Some v
  | _ => None
  end.

Definition runtime : JSONRuntime :=
  {| JSON_parse := parse; JSON_stringify := stringify |}.

End JsonFragment.

(** ** Vocabulary of the properties *)

(** What [escape_entities] writes for one character. *)
Definition entity_of (a : ascii) : string :=
  if Ascii.eqb a "&"%char then "&amp;"
  else if Ascii.eqb a "<"%char then "&lt;"
  else if Ascii.eqb a ">"%char then "&gt;"
  else if Ascii.eqb a quote_char then "&quot;"
  else if Ascii.eqb a apos_char then "&#x27;"
  else String a EmptyString.

(** A sanitized name as section 8 describes it. *)
Definition sanitized_as_specified (out : string) : Prop :=
  (String.length out ≤ 50)%nat
  ∧ no_raw_special out = true
  ∧ no_leading_space out = true
  ∧ no_trailing_space out = true.

Definition is_text (v : jsvalue) : bool :=
  match v with
  | Some (JStr _) => true
  | _ => false
  end.

Global Instance waiter_eq_dec : EqDecision waiter.
Proof. solve_decision. Defined.

(** The placeholder entry of one participant in a fallback result. *)
Definition placeholder_writeup (p : Participant.t) : json :=
  JObj [ ("name", JStr (Participant.name p));
         ("taste_summary", JStr "Analysis unavailable");
         ("personal_recs", JArr []) ].

(** A degraded result: no recommendations, a summary that is not empty,
    and the given individual write-ups. *)
Definition degraded (r : json) (writeups : list json) : Prop :=
  field "recommendations" r = Some (JArr [])
  ∧ (∃ s, field "group_summary" r = Some (JStr s) ∧ s ≠ "")
  ∧ field "individual_writeups" r = Some (JArr writeups).

(** The fallback of section 8: one placeholder entry per participant. *)
Definition fallback_as_specified (ps : list Participant.t) (r : json) : Prop :=
  degraded r (map placeholder_writeup ps).

Definition is_synthesis (w : waiter) (id : string) (e : effect) : bool :=
  match e with
  | Synthesize w' id' _ => bool_decide (w' = w ∧ id' = id)
  | Emit _ _ => false
  end.

(** How often handler [w] called [generateResults] for session [id]. *)
Fixpoint synthesized (w : waiter) (id : string) (l : list effect) : nat :=
  match l with
  | [] => 0
  | e :: l' => (if is_synthesis w id e then 1 else 0) + synthesized w id l'
  end.

Section Vocabulary.
Context `{JSONRuntime}.

(** The text that [generateResults] parses for a row is valid JSON. *)
Definition answers_ok (p : Participant.t) : Prop :=
  is_Some (JSON_parse (or_text (Participant.answers p) "{}")).

(** The stored answers of a row are null or a valid JSON text. *)
Definition answers_null_or_valid (p : Participant.t) : Prop :=
  match Participant.answers p with
  | None => True
  | Some text => is_Some (JSON_parse text)
  end.

(** [callAI] returned null, or text in which no JSON object is found,
    or text whose braces do not hold valid JSON. *)
Definition no_object_in (result : completion) : Prop :=
  match result with
  | NoContent => True
  | Text s =>
      match match_object s with
      | None => True
      | Some jsonMatch => JSON_parse jsonMatch = None
      end
  | NonText => False
  end.

(** The answers of a submit request survive the round trip through the
    answers column. *)
Definition well_formed (a : action) : Prop :=
  match a with
  | Handle (SubmitAnswers _ _ answers) =>
      is_Some (JSON_parse (or_text (Some (JSON_stringify answers)) "{}"))
  | _ => True
  end.

Definition restarts (id : string) (a : action) : bool :=
  match a with
  | Handle (StartQuiz id') => bool_decide (id' = id)
  | _ => false
  end.

Definition sweeps (a : action) : bool :=
  match a with
  | Sweep _ => true
  | _ => false
  end.

Definition submits_as (participantId : string) (a : action) : bool :=
  match a with
  | Handle (SubmitAnswers _ participantId' _) =>
      bool_decide (participantId' = participantId)
  | _ => false
  end.

Definition status_of (id : string) (s : system) : option status :=
  Session.status <$> sessions (db (srv s)) !! id.

End Vocabulary.

(** What one turn of the event loop can do to the row of session [id]. *)
Inductive session_change (a : action) (id : string)
  : Session.t → Session.t → Prop :=
  | change_none x : session_change a id x x
  | change_completing x participantId answers :
      a = Handle (SubmitAnswers id participantId answers) →
      session_change a id x
        (Session.mk complete (Session.host_name x) (Session.results x)
           (Session.created_at x))
  | change_restart x :
      a = Handle (StartQuiz id) →
      session_change a id x
        (Session.mk collecting (Session.host_name x) (Session.results x)
           (Session.created_at x))
  | change_results x i result res :
      a = Resume i result →
      session_change a id x
        (Session.mk complete (Session.host_name x) (Some res)
           (Session.created_at x)).

(** The row of a participant as later turns may leave it: only the
    answers and the completed flag move, and the flag only to true. *)
Definition same_participant (p p' : Participant.t) : Prop :=
  Participant.id p' = Participant.id p
  ∧ Participant.session_id p' = Participant.session_id p
  ∧ Participant.name p' = Participant.name p
  ∧ Participant.created_at p' = Participant.created_at p
  ∧ (Participant.completed p = true → Participant.completed p' = true).

(** A submit for session [id] is suspended at its synthesizer call. *)
Definition awaits_synthesis (id : string) (s : system) : Prop :=
  ∃ k, k ∈ suspended s ∧ waiting k = SubmitWaits ∧ on_session k = id.

(** How results and status go together in every session of a system. *)
Definition results_follow_status (s : system) : Prop :=
  ∀ id x, sessions (db (srv s)) !! id = Some x →
    (Session.results x ≠ None → Session.status x ≠ lobby)
    ∧ (Session.status x = complete → Session.results x = None →
       awaits_synthesis id s).

(** ** More vocabulary: names *)

(** The five characters that [sanitize] replaces. *)
Definition is_entity_char (a : ascii) : bool :=
  Ascii.eqb a "&"%char || is_markup_char a.

(** A text without any of the five characters. *)
Definition plain_text (s : string) : bool :=
  all_chars (fun a => negb (is_entity_char a)) s.

(** A text made of whitespace only (the empty text included). *)
Definition blank (s : string) : bool := all_chars is_space s.

Definition lacks (c : ascii) (s : string) : bool :=
  all_chars (fun a => negb (Ascii.eqb a c)) s.

(** ** callAI (server/index.js, lines 220-247) *)

(** JavaScript truthiness of a JSON value or [undefined]. *)
Definition truthy (v : jsvalue) : bool :=
  match v with
  | None | Some JNull | Some (JBool false) | Some (JNum 0)
  | Some (JStr EmptyString) => false
  | _ => true
  end.

(** [v[0]] for a value that is neither null nor undefined: the first
    element of an array, the first code unit of a text, the property
    ["0"] of an object. *)
Definition index0 (v : json) : jsvalue :=
  match v with
  | JArr (x :: _) => Some x
  | JStr (String a _) => Some (JStr (String a EmptyString))
  | JObj _ => field "0" v
  | _ => None
  end.

(** [v?.[0]] and [v?.name]: undefined when [v] is null or undefined. *)
Definition optional (get : json -> jsvalue) (v : jsvalue) : jsvalue :=
  match v with
  | None | Some JNull => None
  | Some x => get x
  end.

(** [data.choices?.[0]?.message?.content] on the parsed body of the
    reply (an object of a parsed body has distinct keys, and only
    objects carry the three names); [None] is the TypeError of reading
    a property of null. *)
Definition reply_content (data : json) : option jsvalue :=
  match data with
  | JNull => None
  | _ =>
      Some (optional (field "content")
              (optional (field "message")
                 (optional index0 (field "choices" data))))
  end.

(** [callAI(messages, maxTokens)]: [apiKey] is
    [process.env.SYNTHETIC_API_KEY]; [response] is the parsed body of
    the reply, [None] when [fetch] or [res.json()] rejects. *)
Definition callAI (apiKey : option string) (response : option json)
  : completion :=
  match apiKey with
  | None | Some EmptyString => NoContent
  | Some _ =>
      match response with
      | None => NoContent
      | Some data =>
          match reply_content data with
          | None => NoContent
          | Some content =>
              if truthy content then
                match content with
                | Some (JStr s) => Text s
                | _ => NonText
                end
              else NoContent
          end
      end
  end.

(** ** The quiz movies (server/index.js, lines 123-218 and 321-329) *)

Definition CURATED_MOVIES : list (Z * string) :=
  [ (496243, "Parasite");
    (545611, "Everything Everywhere All at Once");
    (27205, "Inception");
    (238, "The Godfather");
    (155, "The Dark Knight");
    (680, "Pulp Fiction");
    (13, "Forrest Gump");
    (550, "Fight Club");
    (157336, "Interstellar");
    (278, "The Shawshank Redemption");
    (376867, "Moonlight");
    (313369, "La La Land");
    (398818, "Call Me by Your Name");
    (381288, "Lady Bird");
    (508442, "Soul");
    (38757, "Whiplash");
    (76203, "12 Years a Slave");
    (68718, "Django Unchained");
    (4935, "Howl's Moving Castle");
    (129, "Spirited Away");
    (664, "Am" ++ String "233"%char "lie");
    (670, "Oldboy");
    (598, "City of God");
    (372058, "Your Name");
    (346, "Seven Samurai");
    (11360, "Life is Beautiful");
    (872585, "Oppenheimer");
    (569094, "Spider-Man: Across the Spider-Verse");
    (466420, "Killers of the Flower Moon");
    (346698, "Barbie");
    (603, "The Matrix");
    (120, "The Lord of the Rings: The Fellowship of the Ring");
    (769, "GoodFellas");
    (807, "Se7en");
    (297802, "Arrival");
    (264660, "Ex Machina");
    (293660, "Deadpool");
    (284053, "Thor: Ragnarok");
    (419430, "Get Out");
    (493922, "Hereditary");
    (310131, "The Witch");
    (458220, "A Quiet Place");
    (539681, "Midsommar");
    (353486, "The Grand Budapest Hotel");
    (22538, "Scott Pilgrim vs. the World");
    (515001, "Jojo Rabbit");
    (466272, "Once Upon a Time in Hollywood") ]%Z.

(** [array.slice(0, n)]: a negative [n] counts from the end. *)
Definition slice_to {A : Type} (n : Z) (l : list A) : list A :=
  let len := Z.of_nat (length l) in
  let k := if (n <? 0)%Z then Z.max (len + n) 0 else Z.min n len in
  take (Z.to_nat k) l.

(** [parseInt(req.query.count) || 15]; [parsed] is what [parseInt]
    returns, [None] for NaN. *)
Definition quiz_count (parsed : option Z) : Z :=
  match parsed with
  | None | Some 0%Z => 15
  | Some n => n
  end.

(** What GET /api/movies/quiz answers. *)
Inductive quiz_response (movie : Type) : Type :=
  | QuizError (code : nat) (error : string)
  | QuizMovies (movies : list movie).
Arguments QuizError {movie} code error.
Arguments QuizMovies {movie} movies.

Section Quiz.
Context {movie : Type}.

(** [TMDB_API_KEY] of the environment, and what the TMDB call and the
    building of the details give for an id ([None] when either throws). *)
Variable TMDB_API_KEY : option string.
Variable lookup : Z -> option movie.

Definition fetchMovieDetails (tmdbId : Z) : option movie :=
  match TMDB_API_KEY with
  | None | Some EmptyString => None
  | Some _ => lookup tmdbId
  end.

(** [getMoviesForQuiz(count)]; [shuffled] is the curated list as the
    sort with the random comparator leaves it. *)
Definition getMoviesForQuiz (shuffled : list (Z * string)) (count : Z)
  : list movie :=
  let selected := slice_to count shuffled in
  omap (fun m => fetchMovieDetails m.1) selected.

(** GET /api/movies/quiz *)
Definition getQuiz (shuffled : list (Z * string)) (parsed : option Z)
  : quiz_response movie :=
  let count := quiz_count parsed in
  let movies := getMoviesForQuiz shuffled count in
  if bool_decide (length movies = 0)
  then QuizError 503 "Could not fetch movies. Check TMDB API key."
  else QuizMovies movies.

End Quiz.

(** ** More vocabulary: the keys of the store *)

(** Every participant row refers to a session that exists (the FOREIGN
    KEY of the participants table). *)
Definition references_kept (d : store) : Prop :=
  ∀ p, p ∈ participants d → is_Some (sessions d !! Participant.session_id p).

(** No two participant rows share an id (the PRIMARY KEY of the
    participants table). *)
Definition ids_distinct (d : store) : Prop :=
  NoDup (Participant.id <$> participants d).

(** ** The quiz component (client/src/components/MovieQuiz.jsx)

    The state of the component once the movies are loaded, and what the
    buttons it renders do.  A movie is its id and title, the two fields
    that [handleVote] reads; the answers object is keyed by movie id. *)

Module MovieQuiz.

Inductive vote : Type := love | like | pass | havent_seen.

(** One entry of the answers object: movieId, title, vote. *)
Definition answer : Type := Z * string * vote.

Record state : Type := mk {
  movies : list (Z * string);
  currentIndex : nat;
  answers : gmap Z answer
}.

(** The state when the fetch of the movies has succeeded. *)
Definition loaded (ms : list (Z * string)) : state := mk ms 0 ∅.

Definition currentMovie (q : state) : option (Z * string) :=
  movies q !! currentIndex q.

(** [currentIndex === movies.length - 1] *)
Definition isLastMovie (q : state) : bool :=
  bool_decide (Z.of_nat (currentIndex q) = Z.of_nat (length (movies q)) - 1)%Z.

(** [answers[currentMovie?.id]?.vote] *)
Definition currentAnswer (q : state) : option vote :=
  m ← currentMovie q; a ← answers q !! m.1; Some a.2.

(** [Object.keys(answers).length === movies.length] *)
Definition allAnswered (q : state) : bool :=
  bool_decide (size (answers q) = length (movies q)).

(** Lines 57-71; [None] is the TypeError of reading [currentMovie.id]
    when there is no current movie. *)
Definition handleVote (v : vote) (q : state) : option state :=
  m ← currentMovie q;
  Some (mk (movies q)
          (if isLastMovie q then currentIndex q else currentIndex q + 1)
          (<[m.1 := (m.1, m.2, v)]> (answers q))).

(** Lines 85-89. *)
Definition handlePrev (q : state) : state :=
  if bool_decide (0 < currentIndex q)
  then mk (movies q) (currentIndex q - 1) (answers q)
  else q.

(** The click handler of the next button (line 218). *)
Definition handleNext (q : state) : state :=
  mk (movies q) (currentIndex q + 1) (answers q).

(** The buttons, and when each is rendered (lines 150-223). *)
Inductive click : Type :=
  | Vote (v : vote)
  | Back
  | Next
  | Submit.

Definition rendered (c : click) (q : state) : bool :=
  match c with
  | Vote _ => true
  | Back => bool_decide (0 < currentIndex q)
  | Next =>
      negb (isLastMovie q && allAnswered q)
      && bool_decide (is_Some (currentAnswer q)) && negb (isLastMovie q)
  | Submit => isLastMovie q && allAnswered q
  end.

(** A click on a button: nothing happens when it is not rendered;
    submitting hands the answers to [onSubmit] and leaves them as
    they are. *)
Definition press (c : click) (q : state) : state :=
  if rendered c q then
    match c with
    | Vote v => default q (handleVote v q)
    | Back => handlePrev q
    | Next => handleNext q
    | Submit => q
    end
  else q.

Definition presses (cs : list click) (q : state) : state :=
  foldl (fun q c => press c q) q cs.

(** What the buttons keep true of the state: the index is within the
    list, every movie before the current one has an answer, and every
    answer sits under its own movie id and names a listed movie. *)
Definition well_kept (q : state) : Prop :=
  currentIndex q < length (movies q)
  ∧ (∀ j m, j < currentIndex q → movies q !! j = Some m →
            is_Some (answers q !! m.1))
  ∧ (∀ k a, answers q !! k = Some a → a.1.1 = k ∧ (k, a.1.2) ∈ movies q).

(** What goes to [onSubmit] when the submit button is pressed. *)
Definition submitted (q : state) : option (gmap Z answer) :=
  if rendered Submit q then Some (answers q) else None.

End MovieQuiz.

(** ** The landing form (client Landing component, handleSubmit)

    The host name that the form hands to [onCreate]; [None] when it
    returns without creating. *)
Definition Landing_handleSubmit (name : string) : option string :=
  if bool_decide (trim name = EmptyString) then None else Some (trim name).

(** * Properties *)

Close Scope string_scope.

(** ** Properties of sanitize *)

Section SanitizeFacts.

Local Open Scope nat_scope.
Local Arguments String.append !_ _ / : simpl nomatch.

Lemma string_app_assoc (r s t : string) :
  (r ++ (s ++ t) = (r ++ s) ++ t)%string.
Proof. induction r as [|b r IHr]; simpl; [reflexivity|]. now rewrite IHr. Qed.

Lemma replace_all_app c r s1 s2 :
  replace_all c r (s1 ++ s2) = (replace_all c r s1 ++ replace_all c r s2)%string.
Proof.
  induction s1 as [|a s1 IH]; simpl; [reflexivity|].
  destruct (Ascii.eqb a c); rewrite IH; simpl; [|reflexivity].
  apply string_app_assoc.
Qed.

Lemma escape_entities_app s1 s2 :
  escape_entities (s1 ++ s2) = (escape_entities s1 ++ escape_entities s2)%string.
Proof. unfold escape_entities. now rewrite !replace_all_app. Qed.

Lemma escape_entities_one a :
  escape_entities (String a EmptyString) = entity_of a.
Proof. destruct a as [[] [] [] [] [] [] [] []]; reflexivity. Qed.

Lemma escape_entities_cons a s :
  escape_entities (String a s) = (entity_of a ++ escape_entities s)%string.
Proof.
  change (String a s) with (String a EmptyString ++ s)%string.
  now rewrite escape_entities_app, escape_entities_one.
Qed.

Lemma no_markup_escape s : no_markup (escape_entities s) = true.
Proof.
  induction s as [|a s IH]; [reflexivity|].
  rewrite escape_entities_cons.
  destruct a as [[] [] [] [] [] [] [] []]; exact IH.
Qed.

Lemma amps_escaped_escape s : amps_escaped (escape_entities s) = true.
Proof.
  induction s as [|a s IH]; [reflexivity|].
  rewrite escape_entities_cons.
  destruct a as [[] [] [] [] [] [] [] []]; simpl; try exact IH.
  all: destruct (escape_entities s); try exact IH.
Qed.

(** Trimming and slicing keep what holds of every character. *)
Lemma all_chars_trim_start P s :
  all_chars P s = true → all_chars P (trim_start s) = true.
Proof.
  induction s as [|a s IH]; simpl; [done|].
  intros [Ha Hs]%andb_true_iff. destruct (is_space a); [auto|].
  simpl. now rewrite Ha, Hs.
Qed.

Lemma trim_end_cons a s :
  is_space a = false → trim_end (String a s) = String a (trim_end s).
Proof. intros Ha. simpl. rewrite Ha. now destruct (trim_end s). Qed.

Lemma all_chars_trim_end P s :
  all_chars P s = true → all_chars P (trim_end s) = true.
Proof.
  induction s as [|a s IH]; simpl; [done|].
  intros [Ha Hs]%andb_true_iff. specialize (IH Hs).
  destruct (trim_end s) as [|b t].
  - destruct (is_space a); simpl; [done|]. now rewrite Ha.
  - simpl in *. now rewrite Ha, IH.
Qed.

Lemma all_chars_slice0 P n s :
  all_chars P s = true → all_chars P (slice0 n s) = true.
Proof.
  revert s; induction n as [|n IH]; intros [|a s]; simpl; try done.
  intros [Ha Hs]%andb_true_iff. now rewrite Ha, IH.
Qed.

Lemma length_slice0 n s : String.length (slice0 n s) ≤ n.
Proof.
  revert s; induction n as [|n IH]; intros [|a s]; simpl; try lia.
  specialize (IH s). lia.
Qed.

Lemma slice0_all n s : String.length s ≤ n → slice0 n s = s.
Proof.
  revert s; induction n as [|n IH]; intros [|a s]; simpl; try done; try lia.
  intros Hl. rewrite IH; [done|lia].
Qed.

Lemma first_char_trim_start s : not_space (first_char (trim_start s)) = true.
Proof.
  induction s as [|a s IH]; simpl; [done|].
  destruct (is_space a) eqn:Ha; [done|]. simpl. now rewrite Ha.
Qed.

Lemma first_char_trim_end s :
  not_space (first_char s) = true → not_space (first_char (trim_end s)) = true.
Proof.
  destruct s as [|a s]; [done|]. simpl first_char at 1. simpl not_space at 1.
  intros Ha%negb_true_iff. rewrite trim_end_cons by done. simpl. now rewrite Ha.
Qed.

Lemma first_char_slice0 n s :
  not_space (first_char s) = true → not_space (first_char (slice0 n s)) = true.
Proof. destruct n, s; simpl; done. Qed.

Lemma last_char_trim_end s : not_space (last_char (trim_end s)) = true.
Proof.
  induction s as [|a s IH]; simpl trim_end; [done|].
  destruct (trim_end s) as [|b t] eqn:Ht.
  - destruct (is_space a) eqn:Ha; simpl; [done|]. now rewrite Ha.
  - exact IH.
Qed.

Lemma prefix_trim_end t s :
  all_chars (λ a, negb (is_space a)) t = true →
  String.prefix t s = true → String.prefix t (trim_end s) = true.
Proof.
  revert s; induction t as [|b t IH]; intros s Ht Hp.
  - now destruct (trim_end s).
  - destruct s as [|a s]; [done|]. simpl in Ht, Hp.
    apply andb_true_iff in Ht as [Hb Ht].
    destruct (ascii_dec b a) as [->|]; [|done].
    rewrite trim_end_cons by now apply negb_true_iff.
    simpl. destruct (ascii_dec a a); [|done]. now apply IH.
Qed.

Lemma entity_follows_trim_end s :
  existsb (λ t, String.prefix t s) entity_tails = true →
  existsb (λ t, String.prefix t (trim_end s)) entity_tails = true.
Proof.
  unfold entity_tails. cbn [existsb]. rewrite !orb_true_iff.
  intros Hp. repeat destruct Hp as [Hp|Hp]; try discriminate Hp;
    (apply prefix_trim_end in Hp; [|reflexivity]); rewrite Hp; tauto.
Qed.

Lemma amps_escaped_trim_start s :
  amps_escaped s = true → amps_escaped (trim_start s) = true.
Proof.
  induction s as [|a s IH]; simpl; [done|].
  intros [Ha Hs]%andb_true_iff. destruct (is_space a); [auto|].
  simpl. now rewrite Ha, Hs.
Qed.

Lemma amps_escaped_trim_end s :
  amps_escaped s = true → amps_escaped (trim_end s) = true.
Proof.
  induction s as [|a s IH]; [done|].
  intros [Ha Hs]%andb_true_iff. specialize (IH Hs).
  destruct (is_space a) eqn:Hsp.
  - assert (Ascii.eqb a "&" = false) as Hne.
    { destruct (Ascii.eqb_spec a "&"%char) as [->|]; [discriminate Hsp|done]. }
    simpl. rewrite Hsp. destruct (trim_end s) as [|b t]; [done|].
    cbn [amps_escaped]. rewrite Hne. exact IH.
  - rewrite trim_end_cons by done. cbn [amps_escaped].
    rewrite IH, andb_true_r. destruct (Ascii.eqb a "&"); [|done].
    now apply entity_follows_trim_end.
Qed.

End SanitizeFacts.

(** C7, as stated, fails once the 50-character cut applies: the cut comes
    after the trim, so it can leave a space at the end, and it can cut an
    entity down to its ampersand. *)
Lemma sanitize_cut_counterexample :
  ¬ sanitized_as_specified (sanitize (Some (JStr (repeat_char 49 "a" ++ " b"))))
  ∧ ¬ sanitized_as_specified (sanitize (Some (JStr (repeat_char 49 "a" ++ "&")))).
Proof.
  split; intros (_ & Hraw & _ & Hend); vm_compute in Hraw, Hend; discriminate.
Qed.

(** C7 (amended): for every input string the sanitized text has at most 50
    characters, none of them a raw [<], [>], double or single quote, and
    no leading whitespace; when the escaped and trimmed text fits in 50
    characters (nothing is cut), every ampersand in it opens an entity
    and it has no trailing whitespace. *)
Theorem sanitize_bounds (str : string) :
  let out := sanitize (Some (JStr str)) in
  (String.length out ≤ 50)%nat
  ∧ no_markup out = true
  ∧ no_leading_space out = true
  ∧ ((String.length (trim (escape_entities str)) ≤ 50)%nat →
     amps_escaped out = true ∧ no_trailing_space out = true).
Proof.
  cbn [sanitize]. unfold sanitize_string, trim. repeat split.
  - apply length_slice0.
  - apply all_chars_slice0, all_chars_trim_end, all_chars_trim_start,
      no_markup_escape.
  - apply first_char_slice0, first_char_trim_end, first_char_trim_start.
  - rewrite slice0_all by done.
    apply amps_escaped_trim_end, amps_escaped_trim_start, amps_escaped_escape.
  - rewrite slice0_all by done. apply last_char_trim_end.
Qed.

Lemma sanitize_bounds_witness :
  sanitize (Some (JStr "  <b>Tom & 'Jerry'</b> ")) =
    "&lt;b&gt;Tom &amp; &#x27;Jerry&#x27;&lt;/b&gt;"
  ∧ amps_escaped (sanitize (Some (JStr "  <b>Tom & 'Jerry'</b> "))) = true
  ∧ no_trailing_space (sanitize (Some (JStr "  <b>Tom & 'Jerry'</b> "))) = true.
Proof.
  split; [reflexivity|].
  apply (sanitize_bounds "  <b>Tom & 'Jerry'</b> "). vm_compute. lia.
Defined.

(** C10: when the name property of a create or join request is not a
    string (missing, a number, an object, ...), [sanitize] returns the
    empty string and the handler answers 400 with an error body, without
    throwing and without touching the store. *)
Theorem non_text_name_rejected (v : jsvalue) :
  is_text v = false →
  sanitize v = ""
  ∧ (∀ id participantId now sv,
       createSession v id participantId now sv
       = (sv, Respond (Error 400 "Name is required")))
  ∧ (∀ id participantId now sv,
       joinSession id v participantId now sv
       = (sv, Respond (Error 400 "Name is required"))).
Proof.
  intros Hv.
  assert (sanitize v = "") as Hs.
  { destruct v as [[]|]; try reflexivity. discriminate Hv. }
  split; [exact Hs|].
  split; intros; unfold createSession, joinSession; rewrite Hs; reflexivity.
Qed.

Lemma non_text_name_rejected_witness :
  sanitize (Some (JNum 42)) = ""
  ∧ createSession None "s1" "p1" 0 (mkServer empty_store [])
    = (mkServer empty_store [], Respond (Error 400 "Name is required"))
  ∧ joinSession "s1" (Some (JObj [])) "p2" 0 (mkServer empty_store [])
    = (mkServer empty_store [], Respond (Error 400 "Name is required")).
Proof.
  split; [apply (non_text_name_rejected (Some (JNum 42))); reflexivity|].
  split.
  - apply (non_text_name_rejected None); reflexivity.
  - apply (non_text_name_rejected (Some (JObj []))); reflexivity.
Defined.

(** ** Properties of the synthesizer *)

Section SynthesizerFacts.
Context `{JSONRuntime}.

Lemma participantData_ok ps :
  Forall answers_ok ps →
  ∃ d, participantData ps = Some d ∧ map fst d = map Participant.name ps.
Proof.
  unfold participantData.
  induction 1 as [|p ps [v Hv] _ (d & Hd & Hn)]; [by exists []|].
  exists ((Participant.name p, v) :: d). cbn. rewrite Hv. cbn.
  rewrite Hd. cbn. by rewrite Hn.
Qed.

Lemma answers_ok_of_stored p :
  is_Some (JSON_parse "{}") → answers_null_or_valid p → answers_ok p.
Proof.
  unfold answers_null_or_valid, answers_ok.
  destruct (Participant.answers p) as [[|a t]|]; cbn; auto.
Qed.

Lemma unavailable_writeups ps d :
  map fst d = map Participant.name ps →
  map writeup_unavailable d = map placeholder_writeup ps.
Proof.
  revert ps; induction d as [|[n v] d IH]; intros [|p ps] Hm;
    try discriminate Hm; [done|].
  injection Hm as Hn Hm. cbn. rewrite (IH _ Hm).
  unfold writeup_unavailable, placeholder_writeup. cbn. by rewrite Hn.
Qed.

Lemma interpret_cases d result :
  interpret d result = result_unavailable d
  ∨ interpret d result = result_pending
  ∨ interpret d result = result_generated
  ∨ ∃ s jsonMatch, result = Text s ∧ match_object s = Some jsonMatch
                   ∧ JSON_parse jsonMatch = Some (interpret d result).
Proof.
  destruct result as [|[|a s]|]; unfold interpret;
    [by left | by left | | by right; right; left].
  destruct (match_object (String a s)) as [m|] eqn:Hm; [|by right; left].
  destruct (JSON_parse m) as [v|] eqn:Hv; [|by right; right; left].
  right; right; right. eauto.
Qed.

Lemma interpret_no_object d s :
  s ≠ "" → no_object_in (Text s) →
  interpret d (Text s) = result_pending ∨ interpret d (Text s) = result_generated.
Proof.
  destruct s as [|a s]; [done|]. intros _. unfold no_object_in, interpret.
  destruct (match_object (String a s)); auto. intros ->. auto.
Qed.

End SynthesizerFacts.

(** C5, as stated, fails for text without a JSON object: the result then
    has no individual write-ups at all, whoever took part. *)
Lemma fallback_writeups_counterexample :
  let alice := Participant.mk "p1" "s1" "Alice" None true 0 in
  let result := Text "Sorry, no recommendations today." in
  @no_object_in JsonFragment.runtime result
  ∧ @generateResults JsonFragment.runtime [alice] result = Some result_pending
  ∧ ¬ fallback_as_specified [alice] result_pending.
Proof.
  split; [exact I|]. split; [reflexivity|].
  intros (_ & _ & Hw). discriminate Hw.
Qed.

(** C5 (amended): for participants whose answers parse, when the
    completion call returns null (or empty text) the synthesizer returns the
    fallback with no recommendations, a summary that is not empty and one
    placeholder write-up per participant; when it returns other text from
    which no JSON object can be parsed, it returns a degraded result with
    no recommendations and a summary that is not empty. *)
Theorem fallback_results `{JSONRuntime} (ps : list Participant.t)
    (result : completion) :
  Forall answers_ok ps →
  no_object_in result →
  ∃ r, generateResults ps result = Some r
       ∧ (result = NoContent ∨ result = Text "" → fallback_as_specified ps r)
       ∧ (∀ s, result = Text s → s ≠ "" → ∃ writeups, degraded r writeups).
Proof.
  intros Hps Hno. destruct (participantData_ok ps Hps) as (d & Hd & Hn).
  exists (interpret d result). unfold generateResults. rewrite Hd. cbn.
  split; [done|]. split.
  - intros Hr. assert (interpret d result = result_unavailable d) as ->
      by (destruct Hr as [-> | ->]; reflexivity).
    unfold fallback_as_specified, degraded, result_unavailable. cbn.
    rewrite (unavailable_writeups ps d Hn). eauto.
  - intros s -> Hs.
    destruct (interpret_no_object d s Hs Hno) as [-> | ->];
      exists []; unfold degraded; cbn; eauto.
Qed.

Lemma fallback_results_witness :
  let alice := Participant.mk "p1" "s1" "Alice" (Some "{}") true 0 in
  let bob := Participant.mk "p2" "s1" "Bob" None true 1 in
  ∃ r, @generateResults JsonFragment.runtime [alice; bob] NoContent = Some r
       ∧ fallback_as_specified [alice; bob] r.
Proof.
  intros alice bob.
  destruct (@fallback_results JsonFragment.runtime [alice; bob] NoContent)
    as (r & Hr & Hf & _).
  - repeat constructor; by eexists.
  - exact I.
  - exists r. split; [exact Hr|]. apply Hf. by left.
Defined.

(** C6: for participants whose stored answers are each null or valid
    JSON, [generateResults] never throws, whatever the completion call
    returns (null, text without a parsable object, text with one, or
    content that is not text): it returns one of the three degraded
    objects or the object parsed from the text. *)
Theorem generateResults_never_throws `{JSONRuntime} (ps : list Participant.t) :
  is_Some (JSON_parse "{}") →
  Forall answers_null_or_valid ps →
  ∀ result,
    ∃ d r, participantData ps = Some d
           ∧ generateResults ps result = Some r
           ∧ (r = result_unavailable d ∨ r = result_pending ∨ r = result_generated
              ∨ ∃ s jsonMatch, result = Text s
                               ∧ match_object s = Some jsonMatch
                               ∧ JSON_parse jsonMatch = Some r).
Proof.
  intros Hobj Hps result.
  destruct (participantData_ok ps) as (d & Hd & _).
  { eapply Forall_impl; [exact Hps|]. intros p. by apply answers_ok_of_stored. }
  exists d, (interpret d result). unfold generateResults. rewrite Hd.
  split; [done|]. split; [done|]. apply interpret_cases.
Qed.

Lemma generateResults_never_throws_witness :
  let alice := Participant.mk "p1" "s1" "Alice" (Some "{}") true 0 in
  let bob := Participant.mk "p2" "s1" "Bob" None true 1 in
  ∃ r, @generateResults JsonFragment.runtime [alice; bob]
         (Text "Here you go: {} Enjoy!") = Some r.
Proof.
  intros alice bob.
  destruct (@generateResults_never_throws JsonFragment.runtime [alice; bob])
    with (result := Text "Here you go: {} Enjoy!") as (d & r & _ & Hr & _).
  - by eexists.
  - repeat constructor. by eexists.
  - by exists r.
Defined.

(** ** The submit and close handlers, run without interleaving *)

Section HandlerFacts.
Context `{JSONRuntime}.

Lemma select_session_update_results res st id db0 s :
  select_session id db0 = Some s →
  select_session id (update_results res st id db0)
  = Some (Session.mk st (Session.host_name s) (Some res) (Session.created_at s)).
Proof.
  unfold select_session, update_results. cbn. intros Hs.
  by rewrite lookup_alter_eq, Hs.
Qed.


Lemma forallb_completed (ps : list Participant.t) :
  forallb Participant.completed ps = true
  ↔ Forall (λ p, Participant.completed p = true) ps.
Proof.
  induction ps as [|p ps IH]; cbn; [by split; [constructor|]|].
  rewrite andb_true_iff, Forall_cons, IH. done.
Qed.

Lemma forallb_not_completed (ps : list Participant.t) :
  Exists (λ p, Participant.completed p = false) ps →
  forallb Participant.completed ps = false.
Proof.
  intros Hex. destruct (forallb Participant.completed ps) eqn:Hall; [|done].
  apply forallb_completed in Hall. apply Exists_exists in Hex as (p & Hp & Hc).
  rewrite (proj1 (Forall_forall _ _) Hall p Hp) in Hc. discriminate Hc.
Qed.

(** With the primary key in force, the row of a participant is the one
    that the SELECT of the submit handler finds. *)
Lemma select_participant_of_row q id d p :
  NoDup (Participant.id <$> participants d) →
  p ∈ participants d → Participant.id p = q → Participant.session_id p = id →
  select_participant q id d = Some p.
Proof.
  unfold select_participant. intros Hnd Hin Hq Hid.
  induction (participants d) as [|x l IH]; [by apply elem_of_nil in Hin|].
  rewrite fmap_cons in Hnd. apply NoDup_cons in Hnd as [Hx Hl].
  apply elem_of_cons in Hin as [->|Hin]; cbn.
  - by rewrite bool_decide_eq_true_2.
  - rewrite bool_decide_eq_false_2; [by apply IH|].
    intros [Hxq _]. apply Hx. rewrite Hxq, <- Hq.
    apply list_elem_of_fmap. by exists p.
Qed.

Lemma alter_found {A} (f : A → A) (m : gmap string A) i x :
  m !! i = Some x → alter f i m = <[i := f x]> m.
Proof.
  intros Hx. apply map_eq. intros j. destruct (decide (j = i)) as [->|Hne].
  - by rewrite lookup_alter_eq, lookup_insert_eq, Hx.
  - by rewrite lookup_alter_ne, lookup_insert_ne.
Qed.

End HandlerFacts.



(** C2: a submit for a row of an existing session, in a store whose
    participant ids are distinct, writes the serialized answers and
    completed = true into the participant's row and leaves the other
    rows as they are.  When every row of the
    session's roster is then completed and the session read by this
    call was not complete, the call sets the status to complete,
    announces the submission, calls the synthesizer on the roster and
    suspends; run to its end, it stores the serialized result (not
    null) with status complete, announces the results and answers
    allCompleted = true, and it does the same when it is resumed after
    other turns on a store that still has the session.  When every row
    is completed and the session was complete already, it only
    announces the submission.  When some row of the roster is not
    completed, it answers allCompleted = false and leaves the sessions
    untouched.  (The roster's answers are taken to parse.) *)
Theorem submitAnswers_spec `{JSONRuntime} (sv : server) (id participantId : string)
    (answers : json) (participant : Participant.t) (session : Session.t) :
  sessions (db sv) !! id = Some session →
  NoDup (Participant.id <$> participants (db sv)) →
  participant ∈ participants (db sv) →
  Participant.id participant = participantId →
  Participant.session_id participant = id →
  let stored (p : Participant.t) :=
    Participant.mk (Participant.id p) (Participant.session_id p)
      (Participant.name p) (Some (JSON_stringify answers)) true
      (Participant.created_at p) in
  let rows :=
    map (λ p, if bool_decide (Participant.id p = participantId)
              then stored p else p)
      (participants (db sv)) in
  let roster := filter (λ p, Participant.session_id p = id) rows in
  let announced :=
    Emit id (answer_submitted (Participant.name participant)) in
  Forall answers_ok roster →
  ∃ sv1 o,
    submitAnswers id participantId answers sv = (sv1, o)
    ∧ participants (db sv1) = rows
    ∧ stored participant ∈ roster
    ∧ (Forall (λ p, Participant.completed p = true) roster →
       Session.status session ≠ complete →
       ∃ d,
         o = Await (mkPending SubmitWaits id d)
         ∧ sessions (db sv1)
           = <[id := Session.mk complete (Session.host_name session)
                       (Session.results session) (Session.created_at session)]>
               (sessions (db sv))
         ∧ effects sv1
           = (effects sv ++ [announced; Synthesize SubmitWaits id roster])%list
         ∧ ∀ result : completion,
             ∃ r,
               generateResults roster result = Some r
               ∧ (∃ sv',
                    settle result (submitAnswers id participantId answers sv)
                    = (sv', Respond (Submitted true))
                    ∧ sessions (db sv')
                      = <[id := Session.mk complete (Session.host_name session)
                                  (Some (JSON_stringify r))
                                  (Session.created_at session)]>
                          (sessions (db sv))
                    ∧ participants (db sv') = rows
                    ∧ effects sv'
                      = (effects sv
                         ++ [announced; Synthesize SubmitWaits id roster;
                             Emit id (results_ready r)])%list)
               ∧ (∀ (later : server) (x : Session.t),
                    sessions (db later) !! id = Some x →
                    ∃ later',
                      resume (mkPending SubmitWaits id d) result later
                      = (later', Submitted true)
                      ∧ sessions (db later')
                        = <[id := Session.mk complete (Session.host_name x)
                                    (Some (JSON_stringify r))
                                    (Session.created_at x)]>
                            (sessions (db later))
                      ∧ participants (db later') = participants (db later)
                      ∧ effects later'
                        = (effects later ++ [Emit id (results_ready r)])%list))
    ∧ (Forall (λ p, Participant.completed p = true) roster →
       Session.status session = complete →
       o = Respond (Submitted true)
       ∧ sessions (db sv1) = sessions (db sv)
       ∧ effects sv1 = (effects sv ++ [announced])%list)
    ∧ (Exists (λ p, Participant.completed p = false) roster →
       o = Respond (Submitted false)
       ∧ sessions (db sv1) = sessions (db sv)
       ∧ effects sv1 = (effects sv ++ [announced])%list).
Proof.
  intros Hs Hnd Hin Hpid Hsid stored rows roster announced Hok.
  pose proof (select_participant_of_row _ _ _ _ Hnd Hin Hpid Hsid) as Hp.
  destruct (participantData_ok _ Hok) as (d & Hd & _).
  assert (stored participant ∈ roster) as Hrow.
  { apply list_elem_of_filter. split; [exact Hsid|].
    apply list_elem_of_In, in_map_iff. exists participant.
    split; [by rewrite bool_decide_eq_true_2|by apply list_elem_of_In]. }
  assert (select_participants id
            (update_answers (Some (JSON_stringify answers)) participantId (db sv))
          = roster) as Hroster by reflexivity.
  assert (select_session id
            (update_answers (Some (JSON_stringify answers)) participantId (db sv))
          = Some session) as Hsession by exact Hs.
  unfold submitAnswers. rewrite Hp. cbv zeta. rewrite Hroster, Hsession.
  destruct (forallb Participant.completed roster) eqn:Hall.
  - apply forallb_completed in Hall.
    assert (¬ Exists (λ p, Participant.completed p = false) roster) as Hnone.
    { intros (p & Hp' & Hc)%Exists_exists.
      rewrite (proj1 (Forall_forall _ _) Hall p Hp') in Hc. discriminate Hc. }
    destruct (decide (Session.status session = complete)) as [Hc|Hc].
    + rewrite bool_decide_eq_false_2 by (intros ?; done).
      eexists _, _. split; [reflexivity|]. split; [reflexivity|].
      split; [exact Hrow|]. split; [done|]. split; [|done].
      intros _ _. split; [done|]. split; [|done].
      cbn [emit set_db db update_status sessions].
      rewrite (alter_found _ _ _ _ Hs). rewrite <- Hc.
      destruct session. by apply insert_id.
    + rewrite bool_decide_eq_true_2 by done. rewrite Hd.
      eexists _, _. split; [reflexivity|]. split; [reflexivity|].
      split; [exact Hrow|]. split; [|done].
      intros _ _. exists d. split; [done|]. split.
      { cbn [note_synthesis emit set_db db update_status sessions].
        by rewrite (alter_found _ _ _ _ Hs). }
      split; [by cbn; rewrite <- app_assoc|].
      intros result. exists (interpret d result).
      split; [by unfold generateResults; rewrite Hd|]. split.
      * eexists. split; [reflexivity|].
        cbn [resume fst emit set_db note_synthesis db update_results
               update_status sessions participants effects on_session data].
        rewrite (alter_found _ _ _ _ Hs).
        rewrite (alter_found _ _ _ _ (lookup_insert_eq _ _ _)).
        rewrite insert_insert_eq. split; [done|]. split; [done|].
        by rewrite <- !app_assoc.
      * intros later x Hx. eexists. split; [reflexivity|].
        cbn [resume fst emit set_db db update_results sessions participants
               effects on_session data].
        by rewrite (alter_found _ _ _ _ Hx).
  - assert (¬ Forall (λ p, Participant.completed p = true) roster) as Hnot.
    { intros Hf%forallb_completed. by rewrite Hf in Hall. }
    eexists _, _. split; [reflexivity|]. split; [reflexivity|].
    split; [exact Hrow|]. done.
Qed.

Lemma submitAnswers_spec_witness :
  let alice := Participant.mk "p1" "s1" "Alice" (Some "{}") true 0 in
  let bob := Participant.mk "p2" "s1" "Bob" (Some "{}") true 1 in
  let carol := Participant.mk "p3" "s1" "Carol" None false 2 in
  let session := Session.mk collecting "Alice" None 0 in
  let sv := mkServer (mkStore {[ "s1" := session ]} [alice; bob; carol]) [] in
  ∃ r sv',
    @settle JsonFragment.runtime NoContent
      (@submitAnswers JsonFragment.runtime "s1" "p3" (JObj []) sv)
    = (sv', Respond (Submitted true))
    ∧ participants (db sv')
      = [alice; bob; Participant.mk "p3" "s1" "Carol" (Some "{}") true 2]
    ∧ sessions (db sv') !! "s1"
      = Some (Session.mk complete "Alice" (Some (JsonFragment.stringify r)) 0).
Proof.
  intros alice bob carol session sv.
  destruct (@submitAnswers_spec JsonFragment.runtime sv "s1" "p3" (JObj [])
              carol session eq_refl)
    as (sv1 & o & _ & _ & _ & Hyes & _).
  - apply (bool_decide_unpack _). reflexivity.
  - apply list_elem_of_further, list_elem_of_further, list_elem_of_here.
  - reflexivity.
  - reflexivity.
  - change (Forall (@answers_ok JsonFragment.runtime)
              [alice; bob; Participant.mk "p3" "s1" "Carol" (Some "{}"%string) true 2]).
    repeat constructor; exists (JObj []); reflexivity.
  - destruct Hyes as (d & _ & _ & _ & Hend).
    + change (Forall (λ p, Participant.completed p = true)
                [alice; bob; Participant.mk "p3" "s1" "Carol" (Some "{}"%string) true 2]).
      repeat constructor.
    + discriminate.
    + destruct (Hend NoContent) as (r & _ & (sv' & Hrun & Hsessions & Hrows & _) & _).
      exists r, sv'. split; [exact Hrun|]. split; [exact Hrows|].
      rewrite Hsessions. apply lookup_insert_eq.
Defined.

(** ** The event loop: what a turn does to the tables *)

Section StepFacts.
Context `{JSONRuntime}.

Lemma update_status_after st id' db0 id x' :
  sessions (update_status st id' db0) !! id = Some x' →
  ∃ x, sessions db0 !! id = Some x
       ∧ (x' = x ∨ id' = id
                    ∧ x' = Session.mk st (Session.host_name x) (Session.results x)
                             (Session.created_at x)).
Proof.
  unfold update_status; cbn. rewrite lookup_alter_Some.
  intros [(-> & x & Hx & ->)|[_ Hx]]; eauto.
Qed.

Lemma update_results_after res st id' db0 id x' :
  sessions (update_results res st id' db0) !! id = Some x' →
  ∃ x, sessions db0 !! id = Some x
       ∧ (x' = x ∨ id' = id
                    ∧ x' = Session.mk st (Session.host_name x) (Some res)
                             (Session.created_at x)).
Proof.
  unfold update_results; cbn. rewrite lookup_alter_Some.
  intros [(-> & x & Hx & ->)|[_ Hx]]; eauto.
Qed.

(** The sessions table after the synchronous part of each handler. *)
Lemma createSession_sessions h id p now sv sv' o :
  createSession h id p now sv = (sv', o) →
  sessions (db sv') = sessions (db sv)
  ∨ sessions (db sv) !! id = None
    ∧ sessions (db sv')
      = <[id := Session.mk lobby (sanitize h) None now]> (sessions (db sv)).
Proof.
  unfold createSession, insert_session, insert_participant.
  repeat case_match; intros [= <- <-]; simplify_eq; cbn; auto.
Qed.

Lemma joinSession_sessions id n p now sv sv' o :
  joinSession id n p now sv = (sv', o) → sessions (db sv') = sessions (db sv).
Proof.
  unfold joinSession, insert_participant.
  repeat case_match; intros [= <- <-]; simplify_eq; cbn; auto.
Qed.

Lemma startQuiz_sessions id sv sv' o :
  startQuiz id sv = (sv', o) →
  sessions (db sv') = sessions (db sv)
  ∨ sessions (db sv') = sessions (update_status collecting id (db sv)).
Proof. unfold startQuiz. repeat case_match; intros [= <- <-]; cbn; auto. Qed.

Lemma submitAnswers_sessions id p a sv sv' o :
  submitAnswers id p a sv = (sv', o) →
  sessions (db sv') = sessions (db sv)
  ∨ sessions (db sv') = sessions (update_status complete id (db sv)).
Proof.
  unfold submitAnswers. cbv zeta.
  repeat case_match; intros [= <- <-]; cbn; auto.
Qed.

Lemma closeEarly_sessions id sv sv' o :
  closeEarly id sv = (sv', o) → sessions (db sv') = sessions (db sv).
Proof.
  unfold closeEarly. cbv zeta. repeat case_match; intros [= <- <-]; cbn; auto.
Qed.

Lemma getSession_same id sv : (getSession id sv).1 = sv.
Proof. unfold getSession. by repeat case_match. Qed.

Lemma getResults_same id sv : (getResults id sv).1 = sv.
Proof. unfold getResults. by repeat case_match. Qed.

Lemma handle_session_after r sv sv' o id x' :
  handle r sv = (sv', o) →
  sessions (db sv') !! id = Some x' →
  (∃ x, sessions (db sv) !! id = Some x ∧ session_change (Handle r) id x x')
  ∨ (sessions (db sv) !! id = None
     ∧ ∃ hostName participantId now,
         r = CreateSession hostName id participantId now
         ∧ x' = Session.mk lobby (sanitize hostName) None now).
Proof.
  destruct r as [h id' p now|id'|id' n p now|id'|id' p a|id'|id']; cbn [handle].
  - intros [->|[Hnone ->]]%createSession_sessions;
      [left; by eauto using change_none|].
    rewrite lookup_insert_Some. intros [[<- <-]|[_ Hx]].
    + right. eauto 10.
    + left. eauto using change_none.
  - intros Hr. pose proof (getSession_same id' sv) as Hs. rewrite Hr in Hs.
    cbn in Hs. subst sv'. left. eauto using change_none.
  - intros ->%joinSession_sessions. left. eauto using change_none.
  - intros [->| ->]%startQuiz_sessions; [left; by eauto using change_none|].
    intros (x & Hx & [->|[-> ->]])%update_status_after;
      left; eauto using change_none, change_restart.
  - intros [->| ->]%submitAnswers_sessions; [left; by eauto using change_none|].
    intros (x & Hx & [->|[-> ->]])%update_status_after;
      left; eauto using change_none, change_completing.
  - intros Hr. pose proof (getResults_same id' sv) as Hs. rewrite Hr in Hs.
    cbn in Hs. subst sv'. left. eauto using change_none.
  - intros ->%closeEarly_sessions. left. eauto using change_none.
Qed.

(** Every session row after a turn is the row before it, changed as
    [session_change] allows, or the lobby row of a session just created. *)
Lemma step_session_after a s id x' :
  sessions (db (srv (step a s))) !! id = Some x' →
  (∃ x, sessions (db (srv s)) !! id = Some x ∧ session_change a id x x')
  ∨ (sessions (db (srv s)) !! id = None
     ∧ ∃ hostName participantId now,
         a = Handle (CreateSession hostName id participantId now)
         ∧ x' = Session.mk lobby (sanitize hostName) None now).
Proof.
  destruct a as [r|now|i result]; cbn [step].
  - destruct (handle r (srv s)) as [sv' o] eqn:Hr.
    assert (srv (match o with
                 | Await k => mkSystem sv' (suspended s ++ [k])
                 | _ => mkSystem sv' (suspended s)
                 end) = sv') as -> by (by destruct o).
    intros Hx. destruct (handle_session_after _ _ _ _ _ _ Hr Hx)
      as [?|(? & h & p & now & -> & ->)]; eauto 10.
  - cbn. rewrite map_lookup_filter_Some. intros [Hx _].
    left. eauto using change_none.
  - destruct (suspended s !! i) as [k|]; [|left; by eauto using change_none].
    cbn. intros (x & Hx & [->|[<- ->]])%update_results_after;
      left; eauto using change_none, change_results.
Qed.

(** Only the sweep deletes a session. *)
Lemma step_session_kept a s id x :
  sweeps a = false →
  sessions (db (srv s)) !! id = Some x →
  ∃ x', sessions (db (srv (step a s))) !! id = Some x' ∧ session_change a id x x'.
Proof.
  intros Ha Hx.
  assert (is_Some (sessions (db (srv (step a s))) !! id)) as [x' Hx'].
  { destruct a as [r|now|i result]; [|done|]; cbn [step].
    - destruct (handle r (srv s)) as [sv' o] eqn:Hr.
      assert (srv (match o with
                   | Await k => mkSystem sv' (suspended s ++ [k])
                   | _ => mkSystem sv' (suspended s)
                   end) = sv') as -> by (by destruct o).
      destruct r as [h id' p now|id'|id' n p now|id'|id' p a|id'|id'];
        cbn [handle] in Hr.
      + apply createSession_sessions in Hr as [->|[Hnone ->]]; [by eauto|].
        rewrite lookup_insert_is_Some. destruct (decide (id' = id)); eauto.
      + pose proof (getSession_same id' (srv s)) as Hs. rewrite Hr in Hs.
        cbn in Hs. subst sv'. eauto.
      + apply joinSession_sessions in Hr as ->. eauto.
      + apply startQuiz_sessions in Hr as [->| ->]; [by eauto|].
        cbn. rewrite lookup_alter_is_Some. eauto.
      + apply submitAnswers_sessions in Hr as [->| ->]; [by eauto|].
        cbn. rewrite lookup_alter_is_Some. eauto.
      + pose proof (getResults_same id' (srv s)) as Hs. rewrite Hr in Hs.
        cbn in Hs. subst sv'. eauto.
      + apply closeEarly_sessions in Hr as ->. eauto.
    - destruct (suspended s !! i) as [k|]; [|by eauto].
      cbn. rewrite lookup_alter_is_Some. eauto. }
  exists x'. split; [done|].
  destruct (step_session_after _ _ _ _ Hx') as [(x0 & Hx0 & Hc)|[Hnone _]];
    congruence.
Qed.
End StepFacts.

(** ** Sequences of turns: status and participant rows *)

Section TraceFacts.
Context `{JSONRuntime}.

Lemma run_cons a tr s : run (a :: tr) s = run tr (step a s).
Proof. done. Qed.

Lemma run_snoc tr a s : run (tr ++ [a]) s = step a (run tr s).
Proof. unfold run. by rewrite foldl_snoc. Qed.

Lemma startQuiz_again id sv x :
  sessions (db sv) !! id = Some x →
  Session.status x = collecting →
  startQuiz id sv = (emit id questions_ready sv, Respond Mode).
Proof.
  intros Hx Hc. unfold startQuiz, select_session. rewrite Hx.
  assert (update_status collecting id (db sv) = db sv) as ->.
  { unfold update_status. destruct (db sv) as [m ps]; cbn in *. f_equal.
    apply alter_id. intros y Hy. rewrite Hx in Hy. injection Hy as <-.
    destruct x; cbn in *. by subst. }
  by destruct sv.
Qed.

Lemma session_change_rank a id x x' :
  session_change a id x x' →
  (Session.status x' = lobby → Session.status x = lobby)
  ∧ (restarts id a = false → rank (Session.status x) ≤ rank (Session.status x')).
Proof.
  destruct 1 as [x|x p ans ->|x ->|x i result res ->]; cbn; split; try done.
  - intros _. destruct (Session.status x); cbn; lia.
  - by rewrite bool_decide_eq_true_2.
  - intros _. destruct (Session.status x); cbn; lia.
Qed.

(** The participants table after the synchronous part of each handler. *)
Lemma list_lookup_map {A B} (f : A → B) l i : map f l !! i = f <$> l !! i.
Proof. revert i; induction l as [|x l IH]; intros [|i]; cbn; auto. Qed.

Lemma createSession_participants h id p now sv sv' o :
  createSession h id p now sv = (sv', o) →
  ∃ extra, participants (db sv') = participants (db sv) ++ extra
           ∧ Forall (λ q, Participant.answers q = None) extra.
Proof.
  unfold createSession, insert_session, insert_participant.
  repeat case_match; intros [= <- <-]; simplify_eq; cbn;
    try (exists []; by rewrite app_nil_r); eauto.
Qed.

Lemma joinSession_participants id n p now sv sv' o :
  joinSession id n p now sv = (sv', o) →
  ∃ extra, participants (db sv') = participants (db sv) ++ extra
           ∧ Forall (λ q, Participant.answers q = None) extra.
Proof.
  unfold joinSession, insert_participant.
  repeat case_match; intros [= <- <-]; simplify_eq; cbn;
    try (exists []; by rewrite app_nil_r); eauto.
Qed.

Lemma startQuiz_participants id sv sv' o :
  startQuiz id sv = (sv', o) → participants (db sv') = participants (db sv).
Proof. unfold startQuiz. by repeat case_match; intros [= <- <-]. Qed.

Lemma closeEarly_participants id sv sv' o :
  closeEarly id sv = (sv', o) → participants (db sv') = participants (db sv).
Proof. unfold closeEarly. cbv zeta. by repeat case_match; intros [= <- <-]. Qed.

Lemma submitAnswers_participants id p a sv sv' o :
  submitAnswers id p a sv = (sv', o) →
  participants (db sv') = participants (db sv)
  ∨ participants (db sv')
    = participants (update_answers (Some (JSON_stringify a)) p (db sv)).
Proof.
  unfold submitAnswers. cbv zeta.
  repeat case_match; intros [= <- <-]; cbn; auto.
Qed.

Lemma record_answers_same text p : same_participant p (record_answers text p).
Proof. by repeat split. Qed.

Lemma same_participant_refl p : same_participant p p.
Proof. by repeat split. Qed.

Lemma same_participant_trans p q r :
  same_participant p q → same_participant q r → same_participant p r.
Proof.
  intros (?&?&?&?&?) (?&?&?&?&?). repeat split; try congruence. auto.
Qed.

Lemma handle_participant_kept r sv sv' o i p :
  handle r sv = (sv', o) →
  participants (db sv) !! i = Some p →
  ∃ p', participants (db sv') !! i = Some p'
        ∧ same_participant p p'
        ∧ (submits_as (Participant.id p) (Handle r) = false → p' = p).
Proof.
  intros Hr Hp.
  destruct r as [h id' q now|id'|id' n q now|id'|id' q a|id'|id'];
    cbn [handle] in Hr.
  - apply createSession_participants in Hr as (extra & -> & _).
    exists p. split; [by apply lookup_app_l_Some|].
    auto using same_participant_refl.
  - pose proof (getSession_same id' sv) as Hs. rewrite Hr in Hs.
    cbn in Hs. subst sv'. eauto using same_participant_refl.
  - apply joinSession_participants in Hr as (extra & -> & _).
    exists p. split; [by apply lookup_app_l_Some|].
    auto using same_participant_refl.
  - apply startQuiz_participants in Hr as ->. eauto using same_participant_refl.
  - apply submitAnswers_participants in Hr as [->| ->];
      [by eauto using same_participant_refl|].
    cbn. rewrite list_lookup_map, Hp. cbn.
    eexists; split; [done|]. case_bool_decide as Hid.
    + split; [apply record_answers_same|]. by rewrite bool_decide_eq_true_2.
    + auto using same_participant_refl.
  - pose proof (getResults_same id' sv) as Hs. rewrite Hr in Hs.
    cbn in Hs. subst sv'. eauto using same_participant_refl.
  - apply closeEarly_participants in Hr as ->. eauto using same_participant_refl.
Qed.

Lemma step_participant_kept a s i p :
  sweeps a = false →
  participants (db (srv s)) !! i = Some p →
  ∃ p', participants (db (srv (step a s))) !! i = Some p'
        ∧ same_participant p p'
        ∧ (submits_as (Participant.id p) a = false → p' = p).
Proof.
  intros Ha Hp. destruct a as [r|now|j result]; [|done|]; cbn [step].
  - destruct (handle r (srv s)) as [sv' o] eqn:Hr.
    assert (srv (match o with
                 | Await k => mkSystem sv' (suspended s ++ [k])
                 | _ => mkSystem sv' (suspended s)
                 end) = sv') as -> by (by destruct o).
    by eapply handle_participant_kept.
  - destruct (suspended s !! j); cbn; eauto using same_participant_refl.
Qed.

End TraceFacts.

(** C3, as stated, fails: StartQuiz on a complete session writes
    'collecting' over 'complete'. *)
Lemma status_backward_counterexample :
  let played :=
    [ Handle (CreateSession (Some (JStr "Alice")) "s1" "p1" 0);
      Handle (StartQuiz "s1");
      Handle (SubmitAnswers "s1" "p1" (JObj []));
      Resume 0 NoContent ] in
  status_of "s1" (@run JsonFragment.runtime played boot) = Some complete
  ∧ status_of "s1"
      (@run JsonFragment.runtime (played ++ [Handle (StartQuiz "s1")]) boot)
    = Some collecting.
Proof. split; vm_compute; reflexivity. Qed.

(** C3 (amended): while a session exists (no retention sweep in
    between), no sequence of turns brings its status back to 'lobby',
    and no sequence without a StartQuiz for it lowers its status at all;
    StartQuiz on a session already in 'collecting' changes nothing in
    the store and only emits the ready event again. *)
Theorem status_forward_except_restart `{JSONRuntime} (tr : list action)
    (s : system) (id : string) (x : Session.t) :
  Forall (λ a, sweeps a = false) tr →
  sessions (db (srv s)) !! id = Some x →
  (∃ x', sessions (db (srv (run tr s))) !! id = Some x'
         ∧ (Session.status x' = lobby → Session.status x = lobby)
         ∧ (Forall (λ a, restarts id a = false) tr →
            rank (Session.status x) ≤ rank (Session.status x')))
  ∧ (Session.status x = collecting →
     startQuiz id (srv s) = (emit id questions_ready (srv s), Respond Mode)).
Proof.
  intros Htr Hx. split; [|by apply startQuiz_again].
  revert s x Hx. induction Htr as [|a tr Ha _ IH]; intros s x Hx.
  - exists x. cbn. auto.
  - destruct (step_session_kept a s id x Ha Hx) as (x1 & Hx1 & Hc).
    destruct (IH _ _ Hx1) as (x' & Hx' & Hlobby & Hrank).
    destruct (session_change_rank _ _ _ _ Hc) as [Hl1 Hr1].
    exists x'. rewrite run_cons. split; [done|]. split; [by auto|].
    intros [Hna Hntr]%Forall_cons. specialize (Hrank Hntr). specialize (Hr1 Hna). lia.
Qed.

Lemma status_forward_except_restart_witness :
  let s := @run JsonFragment.runtime
             [ Handle (CreateSession (Some (JStr "Alice")) "s1" "p1" 0);
               Handle (StartQuiz "s1") ] boot in
  let tr := [ Handle (JoinSession "s1" (Some (JStr "Bob")) "p2" 1);
              Handle (SubmitAnswers "s1" "p1" (JObj []));
              Handle (CloseEarly "s1");
              Resume 0 NoContent ] in
  ∃ x', sessions (db (srv (@run JsonFragment.runtime tr s))) !! "s1" = Some x'
        ∧ rank collecting ≤ rank (Session.status x').
Proof.
  intros s tr.
  destruct (@status_forward_except_restart JsonFragment.runtime tr s "s1"
              (Session.mk collecting "Alice" None 0))
    as [(x' & Hx' & _ & Hrank) _].
  - repeat constructor.
  - vm_compute. reflexivity.
  - exists x'. split; [exact Hx'|]. apply Hrank. repeat constructor.
Defined.




(** ** Sequences of turns: calls of the synthesizer *)

Section SynthesisFacts.
Context `{JSONRuntime}.

Lemma synthesized_app w id l1 l2 :
  synthesized w id (l1 ++ l2) = synthesized w id l1 + synthesized w id l2.
Proof. induction l1 as [|e l1 IH]; cbn; [done|]. rewrite IH. lia. Qed.





End SynthesisFacts.




(** ** Sequences of turns: results and status *)

Section ResultsFacts.
Context `{JSONRuntime}.

Lemma Forall_map_keeps {A} (P : A → Prop) (g : A → A) l :
  (∀ x, P x → P (g x)) → Forall P l → Forall P (map g l).
Proof. intros Hg. induction 1; cbn; constructor; auto. Qed.

Lemma answers_ok_fresh q :
  is_Some (JSON_parse "{}") → Participant.answers q = None → answers_ok q.
Proof. unfold answers_ok. by intros ? ->. Qed.

Lemma answers_ok_recorded a p :
  is_Some (JSON_parse "{}") →
  (∀ id q, well_formed (Handle (SubmitAnswers id q a))) →
  answers_ok (record_answers (Some (JSON_stringify a)) p).
Proof.
  unfold answers_ok. cbn. intros Hobj Hwf. exact (Hwf "" "").
Qed.

(** The answers column only ever holds what [generateResults] can parse. *)
Lemma step_answers_ok a s :
  is_Some (JSON_parse "{}") → well_formed a →
  Forall answers_ok (participants (db (srv s))) →
  Forall answers_ok (participants (db (srv (step a s)))).
Proof.
  intros Hobj Hwf Hok. destruct a as [r|now|i result]; cbn [step].
  - destruct (handle r (srv s)) as [sv' o] eqn:Hr.
    assert (srv (match o with
                 | Await k => mkSystem sv' (suspended s ++ [k])
                 | _ => mkSystem sv' (suspended s)
                 end) = sv') as -> by (by destruct o).
    destruct r as [h id' q now|id'|id' n q now|id'|id' q a|id'|id'];
      cbn [handle] in Hr.
    + apply createSession_participants in Hr as (extra & -> & Hex).
      apply Forall_app. split; [done|].
      eapply Forall_impl; [exact Hex|]. intros p. by apply answers_ok_fresh.
    + pose proof (getSession_same id' (srv s)) as Hs. rewrite Hr in Hs.
      cbn in Hs. by subst sv'.
    + apply joinSession_participants in Hr as (extra & -> & Hex).
      apply Forall_app. split; [done|].
      eapply Forall_impl; [exact Hex|]. intros p. by apply answers_ok_fresh.
    + by apply startQuiz_participants in Hr as ->.
    + apply submitAnswers_participants in Hr as [->| ->]; [done|].
      cbn. apply Forall_map_keeps; [|done].
      intros p Hp. case_bool_decide; [|done].
      apply answers_ok_recorded; [done|]. intros ??. exact Hwf.
    + pose proof (getResults_same id' (srv s)) as Hs. rewrite Hr in Hs.
      cbn in Hs. by subst sv'.
    + by apply closeEarly_participants in Hr as ->.
  - cbn. apply Forall_forall. intros p [_ Hp]%list_elem_of_filter.
    by eapply (proj1 (Forall_forall _ _) Hok).
  - by destruct (suspended s !! i).
Qed.

Lemma handle_keeps_suspended r s k :
  k ∈ suspended s → k ∈ suspended (step (Handle r) s).
Proof.
  intros Hk. cbn [step]. destruct (handle r (srv s)) as [sv' [| |k']]; cbn;
    [done|done|]. apply elem_of_app. by left.
Qed.

(** A submit that takes a session to 'complete' suspends at its
    synthesizer call, provided the roster's answers parse. *)
Lemma submitAnswers_suspends id q a s x :
  sessions (db (srv s)) !! id = Some x →
  Session.status x ≠ complete →
  status_of id (step (Handle (SubmitAnswers id q a)) s) = Some complete →
  Forall answers_ok
    (participants (db (srv (step (Handle (SubmitAnswers id q a)) s)))) →
  awaits_synthesis id (step (Handle (SubmitAnswers id q a)) s).
Proof.
  intros Hx Hne. unfold status_of, awaits_synthesis. cbn [step handle].
  unfold submitAnswers. cbv zeta.
  destruct (select_participant q id (db (srv s))) as [participant|];
    [|cbn; rewrite Hx; cbn; by intros [=]].
  destruct (forallb _ _);
    [|cbn; rewrite Hx; cbn; by intros [=]].
  assert (select_session id
            (update_answers (Some (JSON_stringify a)) q (db (srv s))) = Some x)
    as -> by done.
  rewrite bool_decide_eq_true_2 by done.
  destruct (participantData _) as [d|] eqn:Hd.
  - intros _ _. cbn. eexists. split; [apply elem_of_app; right; by left|done].
  - cbn. intros _ Hok. exfalso.
    destruct (participantData_ok
                (select_participants id
                   (update_answers (Some (JSON_stringify a)) q (db (srv s)))))
      as (d & Hd' & _); [|congruence].
    apply Forall_forall. intros p [_ Hp]%list_elem_of_filter.
    by eapply (proj1 (Forall_forall _ _) Hok).
Qed.

Lemma elem_of_delete_other {A} (l : list A) i k k' :
  l !! i = Some k → k' ∈ l → k' ≠ k → k' ∈ delete i l.
Proof.
  intros Hi [j Hj]%list_elem_of_lookup Hne. apply list_elem_of_lookup.
  destruct (decide (j < i)) as [Hlt|Hge].
  - exists j. by rewrite list_lookup_delete_lt.
  - assert (j ≠ i) by (intros ->; congruence).
    exists (j - 1). rewrite list_lookup_delete_ge by lia.
    by replace (S (j - 1)) with j by lia.
Qed.

Lemma step_keeps_invariant a s :
  is_Some (JSON_parse "{}") → well_formed a →
  Forall answers_ok (participants (db (srv s))) →
  results_follow_status s → results_follow_status (step a s).
Proof.
  intros Hobj Hwf Hok Hinv id x' Hx'.
  pose proof (step_answers_ok a s Hobj Hwf Hok) as Hok'.
  destruct (step_session_after a s id x' Hx')
    as [(x & Hx & Hc)|(_ & h & p & now & _ & ->)]; [|done].
  destruct (Hinv id x Hx) as [Hres Hwait].
  destruct Hc as [x|x q ans ->|x ->|x i result res ->]; cbn; try done.
  - (* the row is as before *)
    split; [done|]. intros Hst Hnone.
    destruct (Hwait Hst Hnone) as (k & Hk & Hw & Hon).
    destruct a as [r|now|i result].
    + exists k. auto using handle_keeps_suspended.
    + by exists k.
    + cbn [step] in *. destruct (suspended s !! i) as [k0|] eqn:Hk0;
        [|by exists k].
      cbn in *. destruct (decide (on_session k0 = id)) as [Heq|Hneq].
      * exfalso. revert Hx'. unfold update_results; cbn. rewrite Heq.
        rewrite lookup_alter_eq, Hx. cbn. intros [= Hrow].
        rewrite <- Hrow in Hnone. discriminate Hnone.
      * exists k. split; [|done].
        eapply elem_of_delete_other; [done|done|congruence].
  - (* a submit has set the status to complete *)
    split; [done|]. intros _ Hnone.
    destruct (decide (Session.status x = complete)) as [Hst|Hst].
    + destruct (Hwait Hst Hnone) as (k & Hk & Hw & Hon).
      exists k. split; [|done].
      by apply (handle_keeps_suspended (SubmitAnswers id q ans)).
    + apply (submitAnswers_suspends id q ans s x); try done.
      unfold status_of. by rewrite Hx'.
Qed.

Lemma run_keeps_invariant tr :
  is_Some (JSON_parse "{}") → Forall well_formed tr →
  Forall answers_ok (participants (db (srv (run tr boot))))
  ∧ results_follow_status (run tr boot).
Proof.
  intros Hobj. induction tr as [|a tr IH] using rev_ind; intros Htr.
  - split; [constructor|]. intros id x Hx. done.
  - apply Forall_app in Htr as [Htr [Ha _]%Forall_cons].
    destruct (IH Htr) as [Hok Hinv]. rewrite run_snoc.
    split; [by apply step_answers_ok|by apply step_keeps_invariant].
Qed.

Lemma step_writes_results_at_complete a s id x x' :
  sessions (db (srv s)) !! id = Some x →
  sessions (db (srv (step a s))) !! id = Some x' →
  Session.results x' ≠ Session.results x →
  Session.status x' = complete ∧ is_Some (Session.results x').
Proof.
  intros Hx Hx' Hne.
  destruct (step_session_after a s id x' Hx')
    as [(x0 & Hx0 & Hc)|(Hnone & _)]; [|congruence].
  rewrite Hx in Hx0. injection Hx0 as <-.
  destruct Hc as [x|x q ans ->|x ->|x i result res ->]; cbn in *; try done.
Qed.

End ResultsFacts.

(** C4, as stated, fails in both directions: while the last submit waits
    for the synthesizer the status is already 'complete' and results is
    still null, and StartQuiz on a complete session puts the status back
    to 'collecting' and leaves the results in place. *)
Lemma results_iff_complete_counterexample :
  let waiting_for_synthesis :=
    [ Handle (CreateSession (Some (JStr "Alice")) "s1" "p1" 0);
      Handle (StartQuiz "s1");
      Handle (SubmitAnswers "s1" "p1" (JObj [])) ] in
  let restarted :=
    waiting_for_synthesis ++ [ Resume 0 NoContent; Handle (StartQuiz "s1") ] in
  (∃ x, sessions (db (srv (@run JsonFragment.runtime waiting_for_synthesis boot)))
          !! "s1" = Some x
        ∧ Session.status x = complete ∧ Session.results x = None)
  ∧ (∃ x, sessions (db (srv (@run JsonFragment.runtime restarted boot)))
            !! "s1" = Some x
          ∧ Session.status x = collecting ∧ Session.results x ≠ None).
Proof.
  split; eexists; (split; [vm_compute; reflexivity|]); by cbn.
Qed.

(** C4 (amended): in every state the server reaches from the empty
    store, a session with results has left the lobby (its status is
    'collecting' or 'complete'); a complete session has results, unless
    the submit that completed it is still suspended at its synthesizer
    call; and every turn that changes the results of a session leaves it
    with results and in status 'complete'. *)
Theorem results_with_status `{JSONRuntime} (tr : list action) :
  is_Some (JSON_parse "{}") →
  Forall well_formed tr →
  results_follow_status (run tr boot)
  ∧ (∀ a id x x',
       sessions (db (srv (run tr boot))) !! id = Some x →
       sessions (db (srv (step a (run tr boot)))) !! id = Some x' →
       Session.results x' ≠ Session.results x →
       Session.status x' = complete ∧ is_Some (Session.results x')).
Proof.
  intros Hobj Htr. split; [by apply run_keeps_invariant|].
  intros a id x x'. apply step_writes_results_at_complete.
Qed.

Lemma results_with_status_witness :
  let tr := [ Handle (CreateSession (Some (JStr "Alice")) "s1" "p1" 0);
              Handle (StartQuiz "s1");
              Handle (SubmitAnswers "s1" "p1" (JObj [("603", JStr "love")]));
              Resume 0 NoContent ] in
  @results_follow_status (@run JsonFragment.runtime tr boot).
Proof.
  intros tr.
  apply (@results_with_status JsonFragment.runtime tr).
  - by eexists.
  - repeat constructor. by eexists.
Defined.

(** ** More on sanitize: which names pass, and how *)

Section NameFacts.
Local Arguments String.append !_ _ / : simpl nomatch.

Lemma blank_entity_of a t :
  blank (entity_of a ++ t)%string = is_space a && blank t.
Proof. destruct a as [[] [] [] [] [] [] [] []]; reflexivity. Qed.

Lemma blank_escape s : blank (escape_entities s) = blank s.
Proof.
  induction s as [|a s IH]; [done|].
  rewrite escape_entities_cons, blank_entity_of, IH. done.
Qed.

Lemma trim_start_empty s : trim_start s = EmptyString ↔ blank s = true.
Proof.
  induction s as [|a s IH]; [done|]. cbn.
  destruct (is_space a); cbn; [done|]. split; discriminate.
Qed.

Lemma trim_empty s : trim s = EmptyString ↔ blank s = true.
Proof.
  rewrite <- trim_start_empty. unfold trim.
  pose proof (first_char_trim_start s) as Hf.
  destruct (trim_start s) as [|a t]; [done|].
  cbn in Hf. apply negb_true_iff in Hf. rewrite trim_end_cons by done.
  split; discriminate.
Qed.

Lemma slice0_empty n s : slice0 (S n) s = EmptyString ↔ s = EmptyString.
Proof. destruct s; cbn; split; done. Qed.

Lemma sanitize_string_empty s : sanitize_string s = EmptyString ↔ blank s = true.
Proof.
  unfold sanitize_string. by rewrite slice0_empty, trim_empty, blank_escape.
Qed.

Lemma plain_escape s : plain_text s = true → escape_entities s = s.
Proof.
  induction s as [|a s IH]; [done|]. unfold plain_text. cbn [all_chars].
  intros [Ha Hs]%andb_true_iff. rewrite escape_entities_cons, (IH Hs).
  unfold entity_of. unfold is_entity_char, is_markup_char in Ha.
  apply negb_true_iff in Ha. rewrite !orb_false_iff in Ha. destruct_and!.
  repeat match goal with H : Ascii.eqb _ _ = false |- _ => rewrite H; clear H end.
  reflexivity.
Qed.

Lemma trim_start_same s : no_leading_space s = true → trim_start s = s.
Proof.
  destruct s as [|a s]; [done|]. cbn. by intros ->%negb_true_iff.
Qed.

Lemma trim_end_same s : no_trailing_space s = true → trim_end s = s.
Proof.
  unfold no_trailing_space. induction s as [|a s IH]; [done|].
  destruct s as [|b s].
  - cbn. by intros ->%negb_true_iff.
  - intros Hl. change (last_char (String a (String b s)))
      with (last_char (String b s)) in Hl.
    specialize (IH Hl). cbn [trim_end] in *. by rewrite IH.
Qed.

Lemma entity_of_shape a :
  is_entity_char a = false ∧ entity_of a = String a EmptyString
  ∨ a = "&"%char ∧ entity_of a = "&amp;"%string
  ∨ a = "<"%char ∧ entity_of a = "&lt;"%string
  ∨ a = ">"%char ∧ entity_of a = "&gt;"%string
  ∨ a = quote_char ∧ entity_of a = "&quot;"%string
  ∨ a = apos_char ∧ entity_of a = "&#x27;"%string.
Proof. destruct a as [[] [] [] [] [] [] [] []]; cbn; tauto. Qed.

Lemma entity_of_inj a b r1 r2 :
  (entity_of a ++ r1 = entity_of b ++ r2)%string → a = b ∧ r1 = r2.
Proof.
  destruct (entity_of_shape a) as [[Ha ->]|[[-> ->]|[[-> ->]|[[-> ->]|[[-> ->]|[-> ->]]]]]];
  destruct (entity_of_shape b) as [[Hb ->]|[[-> ->]|[[-> ->]|[[-> ->]|[[-> ->]|[-> ->]]]]]];
    cbn; intros Heq; simplify_eq; try (split; reflexivity);
    try (vm_compute in Ha; discriminate Ha);
    try (vm_compute in Hb; discriminate Hb).
Qed.

End NameFacts.

(** X1: [sanitize] returns the empty text exactly for values that are
    not strings and for strings made of whitespace only; so these, and
    no others, are the names that the create and join handlers turn
    down with 400. *)
Theorem sanitize_empty_iff (v : jsvalue) :
  sanitize v = EmptyString
  ↔ match v with
    | Some (JStr s) => blank s = true
    | _ => True
    end.
Proof.
  destruct v as [[]|]; cbn [sanitize]; try done. apply sanitize_string_empty.
Qed.

(** X2: a name without any of [&], [<], [>] and the two quotes, without
    whitespace at either end and of at most 50 characters passes
    [sanitize] unchanged. *)
Theorem sanitize_plain_name (s : string) :
  plain_text s = true →
  no_leading_space s = true →
  no_trailing_space s = true →
  (String.length s ≤ 50)%nat →
  sanitize (Some (JStr s)) = s.
Proof.
  intros Hp Hl Ht Hn. unfold sanitize, sanitize_string, trim.
  rewrite (plain_escape s Hp), (trim_start_same s Hl), (trim_end_same s Ht).
  by apply slice0_all.
Qed.

Lemma sanitize_plain_name_witness :
  sanitize (Some (JStr "Alice B.")) = "Alice B."%string.
Proof. apply sanitize_plain_name; vm_compute; (reflexivity || lia). Defined.

(** X3: escaping loses nothing: two texts have the same escaped form
    exactly when they are the same text. *)
Theorem escape_entities_inj (s1 s2 : string) :
  escape_entities s1 = escape_entities s2 ↔ s1 = s2.
Proof.
  split; [|by intros ->].
  revert s2. induction s1 as [|a s1 IH]; intros [|b s2].
  - done.
  - rewrite escape_entities_cons. cbn.
    destruct (entity_of_shape b) as [[_ ->]|[[_ ->]|[[_ ->]|[[_ ->]|[[_ ->]|[_ ->]]]]]];
      discriminate.
  - rewrite escape_entities_cons. cbn.
    destruct (entity_of_shape a) as [[_ ->]|[[_ ->]|[[_ ->]|[[_ ->]|[[_ ->]|[_ ->]]]]]];
      discriminate.
  - rewrite !escape_entities_cons. intros [-> Hr]%entity_of_inj.
    by rewrite (IH _ Hr).
Qed.

(** ** More on the synthesizer: the object found in a reply *)

Section MatchFacts.
Local Arguments String.append !_ _ / : simpl nomatch.

Lemma after_first_spec c s rest :
  after_first c s = Some rest
  ↔ ∃ pre, s = (pre ++ String c rest)%string ∧ lacks c pre = true.
Proof.
  split.
  - revert rest. induction s as [|a s IH]; intros rest; [done|]. cbn.
    destruct (Ascii.eqb_spec a c) as [->|Hne].
    + intros [= ->]. by exists EmptyString.
    + intros (pre & -> & Hpre)%IH. exists (String a pre). split; [done|].
      unfold lacks. cbn. apply andb_true_iff. split; [|done].
      apply negb_true_iff. by apply Ascii.eqb_neq.
  - intros (pre & -> & Hpre). induction pre as [|a pre IH]; cbn.
    + by rewrite Ascii.eqb_refl.
    + unfold lacks in Hpre. cbn in Hpre.
      apply andb_true_iff in Hpre as [Ha%negb_true_iff Hpre].
      rewrite Ha. by apply IH.
Qed.

Lemma through_last_none c s : through_last c s = None ↔ lacks c s = true.
Proof.
  unfold lacks. induction s as [|a s IH]; [done|]. cbn.
  destruct (through_last c s) as [t|].
  - split; [done|]. intros [_ Hs]%andb_true_iff. by apply IH in Hs.
  - destruct (Ascii.eqb a c); cbn; [done|]. by rewrite <- IH.
Qed.

Lemma through_last_spec c s t :
  through_last c s = Some t
  ↔ ∃ body post, s = (body ++ String c post)%string
                 ∧ lacks c post = true
                 ∧ t = (body ++ String c EmptyString)%string.
Proof.
  split.
  - revert t. induction s as [|a s IH]; intros t; [done|]. cbn.
    destruct (through_last c s) as [t'|] eqn:Hs.
    + intros [= <-]. destruct (IH t' eq_refl) as (body & post & -> & Hp & ->).
      by exists (String a body), post.
    + destruct (Ascii.eqb_spec a c) as [->|]; [|done]. intros [= <-].
      exists EmptyString, s. by rewrite <- through_last_none.
  - intros (body & post & -> & Hp & ->).
    induction body as [|a body IH]; cbn.
    + apply through_last_none in Hp. by rewrite Hp, Ascii.eqb_refl.
    + by rewrite IH.
Qed.

End MatchFacts.

(** X4: the regular expression of [generateResults] finds an object in a
    reply exactly when an opening brace is followed, somewhere, by a
    closing brace, and what it hands to [JSON.parse] is the text from the
    first opening brace to the last closing brace: prose before and after
    is dropped, and everything in between is kept, further objects
    included. *)
Theorem match_object_span (result jsonMatch : string) :
  match_object result = Some jsonMatch
  ↔ ∃ pre body post,
      result = (pre ++ String "{" (body ++ String "}" post))%string
      ∧ lacks "{" pre = true
      ∧ lacks "}" post = true
      ∧ jsonMatch = String "{"%char (body ++ String "}" EmptyString)%string.
Proof.
  unfold match_object. split.
  - destruct (after_first "{" result) as [rest|] eqn:Hrest; [|done]. cbn.
    destruct (through_last "}" rest) as [t|] eqn:Ht; [|done]. cbn.
    intros [= <-].
    apply after_first_spec in Hrest as (pre & -> & Hpre).
    apply through_last_spec in Ht as (body & post & -> & Hpost & ->).
    by exists pre, body, post.
  - intros (pre & body & post & -> & Hpre & Hpost & ->).
    rewrite (proj2 (after_first_spec "{" _ _)) by eauto. cbn.
    rewrite (proj2 (through_last_spec "}" _ _)) by eauto. done.
Qed.

(** ** callAI and the synthesizer together *)

(** X5: the degraded mode.  Without an API key (unset or empty), when
    the call or the reading of its body fails, or when the body is
    null, [callAI] gives null, and [generateResults] then returns the
    fallback with one placeholder write-up per participant (whose
    answers parse). *)
Theorem synthesis_without_service `{JSONRuntime} (ps : list Participant.t)
    (apiKey : option string) (response : option json) :
  Forall answers_ok ps →
  apiKey = None ∨ apiKey = Some EmptyString ∨ response = None
  ∨ response = Some JNull →
  ∃ r, generateResults ps (callAI apiKey response) = Some r
       ∧ fallback_as_specified ps r.
Proof.
  intros Hps Hdown. destruct (participantData_ok ps Hps) as (d & Hd & Hn).
  assert (callAI apiKey response = NoContent) as ->.
  { destruct Hdown as [->|[->|[->| ->]]]; try done;
      by destruct apiKey as [[]|]. }
  exists (result_unavailable d). unfold generateResults. rewrite Hd. cbn.
  split; [done|].
  unfold fallback_as_specified, degraded, result_unavailable. cbn.
  rewrite (unavailable_writeups ps d Hn). eauto.
Qed.

Lemma synthesis_without_service_witness :
  let alice := Participant.mk "p1" "s1" "Alice" (Some "{}"%string) true 0 in
  ∃ r, @generateResults JsonFragment.runtime [alice]
         (callAI None (Some (JObj []))) = Some r
       ∧ fallback_as_specified [alice] r.
Proof.
  intros alice.
  apply (@synthesis_without_service JsonFragment.runtime [alice] None).
  - repeat constructor. exists (JObj []). reflexivity.
  - by left.
Defined.

(** X6: the service at work.  With a key set, a reply body whose
    [choices[0].message.content] is text holding an object (from the
    first opening to the last closing brace) that parses makes
    [generateResults] return exactly that parsed object. *)
Theorem synthesis_with_service `{JSONRuntime} (ps : list Participant.t)
    (key : string) (data choice message : json) (others : list json)
    (text jsonMatch : string) (v : json) :
  Forall answers_ok ps →
  key ≠ EmptyString →
  field "choices" data = Some (JArr (choice :: others)) →
  field "message" choice = Some message →
  field "content" message = Some (JStr text) →
  match_object text = Some jsonMatch →
  JSON_parse jsonMatch = Some v →
  generateResults ps (callAI (Some key) (Some data)) = Some v.
Proof.
  intros Hps Hkey Hc Hm Ht Hobj Hv.
  destruct (participantData_ok ps Hps) as (d & Hd & _).
  assert (callAI (Some key) (Some data) = Text text) as ->.
  { unfold callAI, reply_content. destruct key as [|a key]; [done|].
    destruct data; try discriminate Hc. rewrite Hc. cbn.
    destruct choice; try discriminate Hm. rewrite Hm. cbn.
    destruct message; try discriminate Ht. rewrite Ht. cbn.
    destruct text; [discriminate Hobj|done]. }
  unfold generateResults. rewrite Hd. cbn.
  destruct text as [|a text]; [discriminate Hobj|].
  unfold interpret. by rewrite Hobj, Hv.
Qed.

Lemma synthesis_with_service_witness :
  let alice := Participant.mk "p1" "s1" "Alice" (Some "{}"%string) true 0 in
  let body :=
    JObj [ ("id", JStr "cmpl-1");
           ("choices",
            JArr [ JObj [ ("index", JNum 0);
                          ("message",
                           JObj [ ("role", JStr "assistant");
                                  ("content", JStr "Sure! {} Enjoy.") ]) ] ]) ] in
  @generateResults JsonFragment.runtime [alice] (callAI (Some "key"%string) (Some body))
  = Some (JObj []).
Proof.
  intros alice body.
  eapply (@synthesis_with_service JsonFragment.runtime [alice] "key" body
            _ _ _ "Sure! {} Enjoy." "{}"); try reflexivity.
  - repeat constructor. exists (JObj []). reflexivity.
  - discriminate.
Defined.

(** ** The quiz movies *)

Section QuizFacts.
Context {movie : Type}.

Lemma curated_ids_distinct : NoDup (fst <$> CURATED_MOVIES).
Proof. apply (bool_decide_unpack _). by vm_compute. Qed.

Lemma length_slice_to {A} (n : Z) (l : list A) :
  Z.of_nat (length (slice_to n l))
  = (if (n <? 0)%Z then Z.max (Z.of_nat (length l) + n) 0
     else Z.min n (Z.of_nat (length l)))%Z.
Proof.
  unfold slice_to. rewrite length_take. destruct (Z.ltb_spec n 0); lia.
Qed.

Lemma length_omap_le {A B} (f : A → option B) (l : list A) :
  length (omap f l) ≤ length l.
Proof. induction l as [|x l IH]; cbn; [done|]. destruct (f x); cbn; lia. Qed.

Lemma omap_nil_iff {A B} (f : A → option B) (l : list A) :
  omap f l = [] ↔ Forall (λ x, f x = None) l.
Proof.
  induction l as [|x l IH]; cbn; [by split; [constructor|]|].
  destruct (f x) eqn:Hx; cbn.
  - split; [done|]. intros [Hx' _]%Forall_cons. congruence.
  - rewrite IH. split; [by constructor|by intros [_ ?]%Forall_cons].
Qed.

Lemma slice_to_selection (shuffled : list (Z * string)) (count : Z) :
  shuffled ≡ₚ CURATED_MOVIES →
  NoDup (fst <$> slice_to count shuffled)
  ∧ slice_to count shuffled ⊆ CURATED_MOVIES
  ∧ Z.of_nat (length (slice_to count shuffled))
    = (if (count <? 0)%Z then Z.max (47 + count) 0 else Z.min count 47)%Z.
Proof.
  intros Hperm. split; [|split].
  - unfold slice_to. rewrite fmap_take.
    eapply sublist_NoDup; [|apply sublist_take].
    rewrite Hperm. apply curated_ids_distinct.
  - unfold slice_to. etrans; [apply subseteq_take|]. by rewrite Hperm.
  - rewrite length_slice_to, (Permutation_length Hperm). done.
Qed.

End QuizFacts.

(** X7: whatever order the random sort leaves the curated list in, the
    movies selected for a quiz are curated movies with pairwise distinct
    ids; for a count of zero or more there are min(count, 47) of them,
    and a negative count drops that many from the end of the 47
    (count = -1 selects 46). *)
Theorem quiz_selection (shuffled : list (Z * string)) (count : Z) :
  shuffled ≡ₚ CURATED_MOVIES →
  NoDup (fst <$> slice_to count shuffled)
  ∧ slice_to count shuffled ⊆ CURATED_MOVIES
  ∧ Z.of_nat (length (slice_to count shuffled))
    = (if (count <? 0)%Z then Z.max (47 + count) 0 else Z.min count 47)%Z.
Proof. apply slice_to_selection. Qed.

Lemma quiz_selection_witness :
  length (slice_to (-1) (reverse CURATED_MOVIES)) = 46.
Proof.
  destruct (quiz_selection (reverse CURATED_MOVIES) (-1)) as (_ & _ & Hlen).
  - apply reverse_Permutation.
  - apply Nat2Z.inj. rewrite Hlen. reflexivity.
Defined.

(** X8: GET /api/movies/quiz answers 503 exactly when the details of
    none of the selected movies could be fetched; otherwise it answers
    a list that is not empty, holds at most 47 movies and, for a
    positive count, at most count movies (15 when the count parameter
    is missing, not a number, or 0). *)
Theorem getQuiz_spec {movie : Type} (TMDB_API_KEY : option string)
    (lookup : Z → option movie) (shuffled : list (Z * string))
    (parsed : option Z) :
  shuffled ≡ₚ CURATED_MOVIES →
  let count := quiz_count parsed in
  let selected := slice_to count shuffled in
  let fetched := omap (λ m, fetchMovieDetails TMDB_API_KEY lookup m.1) selected in
  (getQuiz TMDB_API_KEY lookup shuffled parsed
   = QuizError 503 "Could not fetch movies. Check TMDB API key."
   ↔ Forall (λ m, fetchMovieDetails TMDB_API_KEY lookup m.1 = None) selected)
  ∧ (∀ movies,
       getQuiz TMDB_API_KEY lookup shuffled parsed = QuizMovies movies →
       movies = fetched ∧ movies ≠ []
       ∧ (Z.of_nat (length movies) ≤ 47)%Z
       ∧ ((0 < count)%Z → (Z.of_nat (length movies) ≤ count)%Z))
  ∧ (parsed = None ∨ parsed = Some 0%Z → count = 15%Z).
Proof.
  intros Hperm count selected fetched.
  destruct (slice_to_selection shuffled count Hperm) as (_ & _ & Hlen).
  pose proof (length_omap_le
                (λ m, fetchMovieDetails TMDB_API_KEY lookup m.1) selected) as Hle.
  fold fetched in Hle. fold selected in Hlen.
  unfold getQuiz, getMoviesForQuiz. fold count. fold selected. fold fetched.
  split; [|split].
  - rewrite <- omap_nil_iff. fold fetched.
    case_bool_decide as Hz; split; try done.
    + intros _. by apply nil_length_inv.
    + intros Hnil. by rewrite Hnil in Hz.
  - intros movies. case_bool_decide as Hz; [done|]. intros [= <-].
    split; [done|]. split; [by intros Hnil; rewrite Hnil in Hz|].
    destruct (Z.ltb_spec count 0); split; lia.
  - by intros [-> | ->].
Qed.

Lemma getQuiz_spec_witness :
  ∃ movies,
    getQuiz (Some "key"%string) (λ id, Some id) (reverse CURATED_MOVIES) (Some 3%Z)
    = QuizMovies movies
    ∧ movies ≠ [].
Proof.
  destruct (getQuiz_spec (Some "key"%string) (λ id, Some id)
              (reverse CURATED_MOVIES) (Some 3%Z)) as (_ & Hm & _).
  - apply reverse_Permutation.
  - eexists. split; [reflexivity|]. by apply (Hm _ eq_refl).
Defined.

(** X9: without a TMDB key (unset or empty) no details are fetched, and
    GET /api/movies/quiz answers 503 whatever the count and the shuffle. *)
Theorem getQuiz_without_key {movie : Type} (TMDB_API_KEY : option string)
    (lookup : Z → option movie) (shuffled : list (Z * string))
    (parsed : option Z) :
  TMDB_API_KEY = None ∨ TMDB_API_KEY = Some EmptyString →
  (∀ tmdbId, fetchMovieDetails TMDB_API_KEY lookup tmdbId = None)
  ∧ getQuiz TMDB_API_KEY lookup shuffled parsed
    = QuizError 503 "Could not fetch movies. Check TMDB API key.".
Proof.
  intros Hkey.
  assert (∀ tmdbId, fetchMovieDetails TMDB_API_KEY lookup tmdbId = None) as Hnone.
  { intros tmdbId. by destruct Hkey as [-> | ->]. }
  split; [done|]. unfold getQuiz, getMoviesForQuiz.
  rewrite (proj2 (omap_nil_iff _ _)); [done|].
  apply Forall_forall. intros m _. apply Hnone.
Qed.

Lemma getQuiz_without_key_witness :
  getQuiz None (λ id, Some id) CURATED_MOVIES (Some 5%Z)
  = QuizError 503 "Could not fetch movies. Check TMDB API key.".
Proof. apply (getQuiz_without_key None (λ id, Some id)). by left. Defined.

(** ** The retention sweep *)

Section SweepFacts.

Lemma expired_false_iff cutoff d id :
  expired cutoff d id = false
  ↔ ∀ x, sessions d !! id = Some x → (cutoff ≤ Session.created_at x)%Z.
Proof.
  unfold expired. destruct (sessions d !! id) as [x|].
  - rewrite bool_decide_eq_false. split.
    + intros Hx y [= <-]. lia.
    + intros Hx. specialize (Hx x eq_refl). lia.
  - split; [by intros _ y|done].
Qed.

Lemma delete_old_sessions cutoff d id x :
  sessions (delete_old cutoff d) !! id = Some x
  ↔ sessions d !! id = Some x ∧ (cutoff ≤ Session.created_at x)%Z.
Proof.
  unfold delete_old. cbn. rewrite map_lookup_filter_Some. cbn.
  split; intros [? ?]; split; (done || lia).
Qed.

Lemma delete_old_participants cutoff d p :
  p ∈ participants (delete_old cutoff d)
  ↔ p ∈ participants d
    ∧ ∀ x, sessions d !! Participant.session_id p = Some x →
           (cutoff ≤ Session.created_at x)%Z.
Proof.
  unfold delete_old. cbn. rewrite list_elem_of_filter, expired_false_iff.
  tauto.
Qed.

Lemma store_eq (d1 d2 : store) :
  sessions d1 = sessions d2 → participants d1 = participants d2 → d1 = d2.
Proof. destruct d1, d2. cbn. by intros -> ->. Qed.

Lemma delete_old_rows cutoff d :
  participants (delete_old cutoff d)
  = filter (λ p, expired cutoff d (Participant.session_id p) = false)
      (participants d).
Proof. done. Qed.

Lemma delete_old_twice c1 c2 d :
  delete_old c2 (delete_old c1 d) = delete_old (Z.max c1 c2) d.
Proof.
  apply store_eq.
  - apply map_eq. intros id. apply option_eq. intros x.
    rewrite !delete_old_sessions. split; [intros [[? ?] ?]|intros [? ?]];
      repeat split; (done || lia).
  - rewrite !delete_old_rows, list_filter_filter.
    apply list_filter_iff. intros p. rewrite !expired_false_iff. split.
    + intros [H2 H1] x Hx. specialize (H1 x Hx).
      assert (sessions (delete_old c1 d) !! Participant.session_id p = Some x)
        as Hx' by (by apply delete_old_sessions).
      specialize (H2 x Hx'). lia.
    + intros Hm. split.
      * intros x [Hx _]%delete_old_sessions. specialize (Hm x Hx). lia.
      * intros x Hx. specialize (Hm x Hx). lia.
Qed.

Lemma cleanup_sessions_only now sv id x :
  sessions (db (cleanupOldSessions now sv)) !! id = Some x
  ↔ sessions (db sv) !! id = Some x ∧ (now - 86400 ≤ Session.created_at x)%Z.
Proof.
  unfold cleanupOldSessions. cbn [db set_db].
  change (24 * 60 * 60)%Z with 86400%Z. apply delete_old_sessions.
Qed.

Lemma cleanup_participants_only now sv p :
  p ∈ participants (db (cleanupOldSessions now sv))
  ↔ p ∈ participants (db sv)
    ∧ ∀ x, sessions (db sv) !! Participant.session_id p = Some x →
           (now - 86400 ≤ Session.created_at x)%Z.
Proof.
  unfold cleanupOldSessions. cbn [db set_db].
  change (24 * 60 * 60)%Z with 86400%Z. apply delete_old_participants.
Qed.

End SweepFacts.

(** X10: retention.  After a sweep at clock [now], a session is in the
    store exactly if it was there and is at most 24 hours old
    (created_at >= now - 86400), with its row unchanged; a participant
    row is in the store exactly if it was there and its session (if it
    has one) is kept; nothing is emitted. *)
Theorem cleanup_retention (now : Z) (sv : server) :
  (∀ id x, sessions (db (cleanupOldSessions now sv)) !! id = Some x
           ↔ sessions (db sv) !! id = Some x
             ∧ (now - 86400 ≤ Session.created_at x)%Z)
  ∧ (∀ p, p ∈ participants (db (cleanupOldSessions now sv))
          ↔ p ∈ participants (db sv)
            ∧ ∀ x, sessions (db sv) !! Participant.session_id p = Some x →
                   (now - 86400 ≤ Session.created_at x)%Z)
  ∧ effects (cleanupOldSessions now sv) = effects sv.
Proof.
  split; [|split]; [intros id x; apply cleanup_sessions_only
                   |intros p; apply cleanup_participants_only|done].
Qed.

(** X11: sweeps compose.  A sweep at clock [now1] followed by a sweep at
    clock [now2] leaves the server as one sweep at the later of the two
    clocks does; in particular a sweep repeated at the same clock changes
    nothing more. *)
Theorem cleanup_twice (now1 now2 : Z) (sv : server) :
  cleanupOldSessions now2 (cleanupOldSessions now1 sv)
  = cleanupOldSessions (Z.max now1 now2) sv.
Proof.
  unfold cleanupOldSessions, set_db. cbn. f_equal.
  rewrite delete_old_twice. f_equal. lia.
Qed.

(** X12: a swept session is gone for every operation.  Once a sweep has
    run on a session older than 24 hours, reading it, starting its quiz,
    closing it and reading its results answer 404 "Session not found",
    joining it (under a valid name) answers the same, and a submit for
    it answers 404 "Participant not found"; none changes the server. *)
Theorem swept_session_not_found `{JSONRuntime} (now : Z) (sv : server)
    (id : string) (x : Session.t) :
  sessions (db sv) !! id = Some x →
  (Session.created_at x < now - 86400)%Z →
  let sv' := cleanupOldSessions now sv in
  getSession id sv' = (sv', Respond (Error 404 "Session not found"))
  ∧ startQuiz id sv' = (sv', Respond (Error 404 "Session not found"))
  ∧ closeEarly id sv' = (sv', Respond (Error 404 "Session not found"))
  ∧ getResults id sv' = (sv', Respond (Error 404 "Session not found"))
  ∧ (∀ name participantId t,
       sanitize name ≠ EmptyString →
       joinSession id name participantId t sv'
       = (sv', Respond (Error 404 "Session not found")))
  ∧ (∀ participantId answers,
       submitAnswers id participantId answers sv'
       = (sv', Respond (Error 404 "Participant not found"))).
Proof.
  intros Hx Hold sv'.
  assert (select_session id (db sv') = None) as Hgone.
  { unfold select_session. apply eq_None_not_Some. intros [y Hy].
    apply (proj1 (cleanup_sessions_only _ _ _ _)) in Hy as [Hy Hkeep].
    rewrite Hx in Hy. injection Hy as <-. lia. }
  assert (∀ q, select_participant q id (db sv') = None) as Hnone.
  { intros q. unfold select_participant.
    destruct (find _ _) as [p|] eqn:Hp; [|done]. exfalso.
    apply find_some in Hp as [Hin [_ Hsid]%bool_decide_eq_true].
    apply list_elem_of_In, cleanup_participants_only in Hin as [_ Hkeep].
    rewrite Hsid in Hkeep. specialize (Hkeep x Hx). lia. }
  unfold getSession, startQuiz, closeEarly, getResults, joinSession,
    submitAnswers.
  rewrite Hgone. repeat split; try done.
  - intros name q t Hname. by rewrite bool_decide_eq_false_2.
  - intros q a. by rewrite Hnone.
Qed.

Lemma swept_session_not_found_witness :
  let sv := (createSession (Some (JStr "Alice")) "s1" "p1" 0
               (mkServer empty_store [])).1 in
  let sv' := cleanupOldSessions 90000 sv in
  getSession "s1" sv' = (sv', Respond (Error 404 "Session not found"))
  ∧ @getResults JsonFragment.runtime "s1" sv'
    = (sv', Respond (Error 404 "Session not found")).
Proof.
  intros sv sv'.
  destruct (@swept_session_not_found JsonFragment.runtime 90000 sv "s1"
              (Session.mk lobby "Alice" None 0))
    as (Hget & _ & _ & Hres & _).
  - reflexivity.
  - reflexivity.
  - split; [exact Hget|exact Hres].
Defined.

(** ** The keys of the store *)

Section KeyFacts.
Context `{JSONRuntime}.

Lemma not_existsb_id (participantId : string) (ps : list Participant.t) :
  existsb (λ p, bool_decide (Participant.id p = participantId)) ps = false →
  participantId ∉ (Participant.id <$> ps).
Proof.
  induction ps as [|p ps IH]; cbn; [intros _; apply not_elem_of_nil|].
  intros [Hp Hps]%orb_false_iff. apply bool_decide_eq_false in Hp.
  rewrite not_elem_of_cons. auto.
Qed.

(** The store after the synchronous part of each handler that writes. *)
Lemma createSession_db h id p now sv sv' o :
  createSession h id p now sv = (sv', o) →
  db sv' = db sv
  ∨ sessions (db sv) !! id = None
    ∧ (db sv' = mkStore (<[id := Session.mk lobby (sanitize h) None now]>
                           (sessions (db sv))) (participants (db sv))
       ∨ (p ∉ (Participant.id <$> participants (db sv)))
         ∧ db sv' = mkStore (<[id := Session.mk lobby (sanitize h) None now]>
                               (sessions (db sv)))
                      (participants (db sv)
                         ++ [Participant.mk p id (sanitize h) None false now])).
Proof.
  unfold createSession, insert_session.
  case_bool_decide; [intros [= <- <-]; by left|].
  destruct (sessions (db sv) !! id) eqn:Hid; [intros [= <- <-]; by left|].
  unfold insert_participant. cbn [participants sessions].
  destruct (existsb _ _) eqn:Hex; intros [= <- <-]; right; (split; [done|]).
  - by left.
  - right. split; [|done]. by apply not_existsb_id.
Qed.

Lemma joinSession_db id n p now sv sv' o :
  joinSession id n p now sv = (sv', o) →
  db sv' = db sv
  ∨ is_Some (sessions (db sv) !! id)
    ∧ (p ∉ (Participant.id <$> participants (db sv)))
    ∧ db sv' = mkStore (sessions (db sv))
                 (participants (db sv)
                    ++ [Participant.mk p id (sanitize n) None false now]).
Proof.
  unfold joinSession, select_session.
  case_bool_decide; [intros [= <- <-]; by left|].
  destruct (sessions (db sv) !! id) eqn:Hid; [|intros [= <- <-]; by left].
  unfold insert_participant.
  destruct (existsb _ _) eqn:Hex; intros [= <- <-]; [by left|].
  right. split; [done|]. split; [|done]. by apply not_existsb_id.
Qed.

Lemma startQuiz_db id sv sv' o :
  startQuiz id sv = (sv', o) →
  db sv' = db sv ∨ db sv' = update_status collecting id (db sv).
Proof. unfold startQuiz. repeat case_match; intros [= <- <-]; cbn; auto. Qed.

Lemma submitAnswers_db id q a sv sv' o :
  submitAnswers id q a sv = (sv', o) →
  db sv' = db sv
  ∨ db sv' = update_answers (Some (JSON_stringify a)) q (db sv)
  ∨ db sv' = update_status complete id
               (update_answers (Some (JSON_stringify a)) q (db sv)).
Proof.
  unfold submitAnswers. cbv zeta.
  repeat case_match; intros [= <- <-]; cbn; auto.
Qed.

Lemma closeEarly_db id sv sv' o :
  closeEarly id sv = (sv', o) → db sv' = db sv.
Proof.
  unfold closeEarly. cbv zeta. by repeat case_match; intros [= <- <-].
Qed.

(** The foreign key under each statement that writes. *)
Lemma references_update_status st id d :
  references_kept d → references_kept (update_status st id d).
Proof.
  intros Hd p Hp. cbn. apply lookup_alter_is_Some. by apply Hd.
Qed.

Lemma references_update_results res st id d :
  references_kept d → references_kept (update_results res st id d).
Proof.
  intros Hd p Hp. cbn. apply lookup_alter_is_Some. by apply Hd.
Qed.

Lemma list_elem_of_map {A B} (f : A → B) (l : list A) y :
  y ∈ map f l ↔ ∃ x, y = f x ∧ x ∈ l.
Proof.
  rewrite list_elem_of_In, in_map_iff. split; intros (x & ? & ?); exists x;
    split; (done || by apply list_elem_of_In).
Qed.

Lemma references_update_answers text q d :
  references_kept d → references_kept (update_answers text q d).
Proof.
  intros Hd p' (p & -> & Hp)%list_elem_of_map. cbn.
  specialize (Hd p Hp). by case_bool_decide.
Qed.

Lemma references_delete_old cutoff d :
  references_kept d → references_kept (delete_old cutoff d).
Proof.
  intros Hd p [Hp Hkeep]%delete_old_participants.
  destruct (Hd p Hp) as [x Hx]. exists x. apply delete_old_sessions. auto.
Qed.

Lemma handle_references r sv sv' o :
  handle r sv = (sv', o) → references_kept (db sv) → references_kept (db sv').
Proof.
  intros Hr Hd.
  destruct r as [h id p now|id|id n p now|id|id q a|id|id]; cbn [handle] in Hr.
  - apply createSession_db in Hr as [->|[Hid [->|[_ ->]]]]; [done|..];
      intros q Hq; cbn in *.
    + apply lookup_insert_is_Some'. right. by apply Hd.
    + apply lookup_insert_is_Some'.
      apply elem_of_app in Hq as [Hq|Hq%list_elem_of_singleton];
        [right; by apply Hd|subst q; by left].
  - pose proof (getSession_same id sv) as Hs. rewrite Hr in Hs. by subst.
  - apply joinSession_db in Hr as [->|(Hid & _ & ->)]; [done|].
    intros q [Hq|Hq%list_elem_of_singleton]%elem_of_app; cbn;
      [by apply Hd|by subst q].
  - apply startQuiz_db in Hr as [->| ->]; [done|].
    by apply references_update_status.
  - apply submitAnswers_db in Hr as [->|[->| ->]]; [done|..];
      [|apply references_update_status]; by apply references_update_answers.
  - pose proof (getResults_same id sv) as Hs. rewrite Hr in Hs. by subst.
  - by apply closeEarly_db in Hr as ->.
Qed.

Lemma step_references a s :
  references_kept (db (srv s)) → references_kept (db (srv (step a s))).
Proof.
  intros Hd. destruct a as [r|now|i result]; cbn [step].
  - destruct (handle r (srv s)) as [sv' o] eqn:Hr.
    assert (srv (match o with
                 | Await k => mkSystem sv' (suspended s ++ [k])
                 | _ => mkSystem sv' (suspended s)
                 end) = sv') as -> by (by destruct o).
    by eapply handle_references.
  - by apply references_delete_old.
  - destruct (suspended s !! i); [|done]. by apply references_update_results.
Qed.

Lemma run_references tr s :
  references_kept (db (srv s)) → references_kept (db (srv (run tr s))).
Proof.
  revert s. induction tr as [|a tr IH]; intros s Hd; [done|].
  rewrite run_cons. by apply IH, step_references.
Qed.

(** The primary key under each statement that writes. *)
Lemma ids_update_answers text q d :
  Participant.id <$> participants (update_answers text q d)
  = Participant.id <$> participants d.
Proof.
  cbn. induction (participants d) as [|p ps IH]; [done|]. cbn.
  rewrite IH. by case_bool_decide.
Qed.

Lemma handle_ids r sv sv' o :
  handle r sv = (sv', o) → ids_distinct (db sv) → ids_distinct (db sv').
Proof.
  unfold ids_distinct. intros Hr Hd.
  destruct r as [h id p now|id|id n p now|id|id q a|id|id]; cbn [handle] in Hr.
  - apply createSession_db in Hr as [->|[Hid [->|[Hp ->]]]]; [done|done|].
    cbn. rewrite fmap_app. apply NoDup_app. split; [done|]. cbn.
    split; [|apply NoDup_singleton].
    intros x Hx Hx'%list_elem_of_singleton. by subst x.
  - pose proof (getSession_same id sv) as Hs. rewrite Hr in Hs. by subst.
  - apply joinSession_db in Hr as [->|(_ & Hp & ->)]; [done|].
    cbn. rewrite fmap_app. apply NoDup_app. split; [done|]. cbn.
    split; [|apply NoDup_singleton].
    intros x Hx Hx'%list_elem_of_singleton. by subst x.
  - by apply startQuiz_db in Hr as [->| ->].
  - apply submitAnswers_db in Hr as [->|[->| ->]]; [done|..];
      [|change (participants (update_status ?st ?i ?d)) with (participants d)];
      by rewrite ids_update_answers.
  - pose proof (getResults_same id sv) as Hs. rewrite Hr in Hs. by subst.
  - by apply closeEarly_db in Hr as ->.
Qed.

Lemma step_ids a s :
  ids_distinct (db (srv s)) → ids_distinct (db (srv (step a s))).
Proof.
  intros Hd. destruct a as [r|now|i result]; cbn [step].
  - destruct (handle r (srv s)) as [sv' o] eqn:Hr.
    assert (srv (match o with
                 | Await k => mkSystem sv' (suspended s ++ [k])
                 | _ => mkSystem sv' (suspended s)
                 end) = sv') as -> by (by destruct o).
    by eapply handle_ids.
  - unfold ids_distinct. cbn.
    eapply sublist_NoDup; [exact Hd|]. apply fmap_sublist, sublist_filter.
  - by destruct (suspended s !! i).
Qed.

(** With both keys and answers that parse, the two asynchronous
    handlers do not throw. *)
Lemma submitAnswers_no_throw id q a sv :
  references_kept (db sv) →
  Forall answers_ok (participants (db sv)) →
  is_Some (JSON_parse (or_text (Some (JSON_stringify a)) "{}")) →
  (submitAnswers id q a sv).2 ≠ Throw.
Proof.
  intros Hfk Hok Hwf. unfold submitAnswers. cbv zeta.
  destruct (select_participant q id (db sv)) as [p|] eqn:Hp; [|done].
  destruct (forallb _ _); [|done].
  apply find_some in Hp as [Hin [_ Hsid]%bool_decide_eq_true].
  apply list_elem_of_In in Hin. destruct (Hfk p Hin) as [x Hx].
  rewrite Hsid in Hx. unfold select_session at 1. cbn [sessions update_answers].
  rewrite Hx. case_bool_decide; [|done].
  destruct (participantData_ok
              (select_participants id
                 (update_answers (Some (JSON_stringify a)) q (db sv))))
    as (d & -> & _); [|done].
  apply Forall_forall. intros p' [_ (p0 & -> & Hp0)%list_elem_of_map]%list_elem_of_filter.
  case_bool_decide; [exact Hwf|].
  by eapply (proj1 (Forall_forall _ _) Hok).
Qed.

Lemma closeEarly_no_throw id sv :
  Forall answers_ok (participants (db sv)) → (closeEarly id sv).2 ≠ Throw.
Proof.
  intros Hok. unfold closeEarly. cbv zeta.
  destruct (select_session id (db sv)); [|done].
  case_bool_decide; [done|].
  destruct (participantData_ok (select_completed id (db sv)))
    as (d & -> & _); [|done].
  apply Forall_forall. intros p [_ Hp]%list_elem_of_filter.
  by eapply (proj1 (Forall_forall _ _) Hok).
Qed.

End KeyFacts.

(** X13: the foreign key holds throughout.  If every participant row
    refers to an existing session, the same is true after any sequence
    of turns of the event loop, sweeps included. *)
Theorem references_kept_invariant `{JSONRuntime} (tr : list action) (s : system) :
  references_kept (db (srv s)) → references_kept (db (srv (run tr s))).
Proof. apply run_references. Qed.

Lemma references_kept_invariant_witness :
  references_kept
    (db (srv (@run JsonFragment.runtime
                [ Handle (CreateSession (Some (JStr "Alice")) "s1" "p1" 0);
                  Handle (JoinSession "s1" (Some (JStr "Bob")) "p2" 1);
                  Sweep 100000 ] boot))).
Proof.
  apply (@references_kept_invariant JsonFragment.runtime).
  intros p Hp. by apply elem_of_nil in Hp.
Defined.

(** X14: the primary key holds throughout.  If no two participant rows
    share an id, the same is true after any sequence of turns: an
    insert under an id in use throws instead of adding a row. *)
Theorem ids_distinct_invariant `{JSONRuntime} (tr : list action) (s : system) :
  ids_distinct (db (srv s)) → ids_distinct (db (srv (run tr s))).
Proof.
  revert s. induction tr as [|a tr IH]; intros s Hd; [done|].
  rewrite run_cons. by apply IH, step_ids.
Qed.

Lemma ids_distinct_invariant_witness :
  ids_distinct
    (db (srv (@run JsonFragment.runtime
                [ Handle (CreateSession (Some (JStr "Alice")) "s1" "p1" 0);
                  Handle (JoinSession "s1" (Some (JStr "Bob")) "p1" 1) ] boot))).
Proof.
  apply (@ids_distinct_invariant JsonFragment.runtime). apply NoDup_nil_2.
Defined.

(** X15: in every state the server reaches from the empty store, a
    close request and a submit request whose body carries a text
    [participantId] and an [answers] value do not make their handler
    throw: it answers, or suspends at the synthesizer call.  (Submitted
    answers are taken to survive stringify and parse, and
    [JSON.parse('{}')] to succeed.  A body whose [participantId] is not
    a text, or that has no [answers], goes unvalidated to the SQL binds
    and is outside this statement.) *)
Theorem async_handlers_do_not_throw `{JSONRuntime} (tr : list action)
    (id participantId : string) (answers : json) :
  is_Some (JSON_parse "{}") →
  Forall well_formed tr →
  well_formed (Handle (SubmitAnswers id participantId answers)) →
  (submitAnswers id participantId answers (srv (run tr boot))).2 ≠ Throw
  ∧ (closeEarly id (srv (run tr boot))).2 ≠ Throw.
Proof.
  intros Hobj Htr Hwf.
  destruct (run_keeps_invariant tr Hobj Htr) as [Hok _].
  split; [|by apply closeEarly_no_throw].
  apply submitAnswers_no_throw; [|done|exact Hwf].
  apply run_references. intros p Hp. by apply elem_of_nil in Hp.
Qed.

Lemma async_handlers_do_not_throw_witness :
  let tr := [ Handle (CreateSession (Some (JStr "Alice")) "s1" "p1" 0);
              Handle (StartQuiz "s1") ] in
  (@submitAnswers JsonFragment.runtime "s1" "p1" (JObj [])
     (srv (@run JsonFragment.runtime tr boot))).2 ≠ Throw.
Proof.
  intros tr.
  apply (@async_handlers_do_not_throw JsonFragment.runtime tr "s1" "p1" (JObj [])).
  - by eexists.
  - repeat constructor.
  - by eexists.
Defined.

(** ** What the handlers leave behind *)

Section OutcomeFacts.
Context `{JSONRuntime}.

Lemma existsb_id_false (participantId : string) (ps : list Participant.t) :
  participantId ∉ (Participant.id <$> ps) →
  existsb (λ p, bool_decide (Participant.id p = participantId)) ps = false.
Proof.
  induction ps as [|p ps IH]; cbn; [done|].
  rewrite not_elem_of_cons. intros [Hp Hps]. rewrite (IH Hps), orb_false_r.
  by apply bool_decide_eq_false_2.
Qed.

Lemma filter_none {A} (P : A → Prop) `{∀ x, Decision (P x)} (l : list A) :
  (∀ x, x ∈ l → ¬ P x) → filter P l = [].
Proof.
  induction l as [|x l IH]; [done|]. intros Hl. rewrite filter_cons.
  destruct (decide (P x)) as [Hx|_].
  - destruct (Hl x); [by left|done].
  - apply IH. intros y Hy. apply Hl. by right.
Qed.

Lemma no_rows_without_session id d :
  references_kept d → sessions d !! id = None → select_participants id d = [].
Proof.
  intros Hfk Hid. unfold select_participants.
  apply filter_none. intros p Hp Hsid.
  destruct (Hfk p Hp) as [x Hx]. congruence.
Qed.

Lemma submitAnswers_rows id q a sv p :
  select_participant q id (db sv) = Some p →
  participants (db (submitAnswers id q a sv).1)
  = participants (update_answers (Some (JSON_stringify a)) q (db sv)).
Proof.
  intros Hp. unfold submitAnswers. rewrite Hp. cbv zeta.
  by repeat case_match.
Qed.

Lemma run_participant_kept tr s i p :
  Forall (λ a, sweeps a = false) tr →
  participants (db (srv s)) !! i = Some p →
  ∃ p', participants (db (srv (run tr s))) !! i = Some p' ∧ same_participant p p'.
Proof.
  intros Htr. revert s p. induction Htr as [|a tr Ha _ IH]; intros s p Hp.
  - exists p. auto using same_participant_refl.
  - destruct (step_participant_kept a s i p Ha Hp) as (p1 & Hp1 & Hs1 & _).
    destruct (IH _ _ Hp1) as (p' & Hp' & Hs').
    exists p'. rewrite run_cons. eauto using same_participant_trans.
Qed.

Lemma select_participant_row q id d p :
  select_participant q id d = Some p →
  p ∈ participants d ∧ Participant.id p = q ∧ Participant.session_id p = id.
Proof.
  unfold select_participant.
  intros [Hin [? ?]%bool_decide_eq_true]%find_some.
  by apply list_elem_of_In in Hin.
Qed.

End OutcomeFacts.

(** X16: creating a session.  Under a name that [sanitize] keeps and
    with ids not in use, POST /api/session answers the new id, the link
    and the host's participant id; the new session is in the lobby
    without results, its roster is the host alone (not completed, no
    answers, under the sanitized name), every other session and roster
    is as before, and nothing is emitted. *)
Theorem createSession_creates (hostName : jsvalue) (id participantId : string)
    (now : Z) (sv : server) :
  sanitize hostName ≠ EmptyString →
  sessions (db sv) !! id = None →
  participantId ∉ (Participant.id <$> participants (db sv)) →
  references_kept (db sv) →
  ∃ sv',
    createSession hostName id participantId now sv
    = (sv', Respond (Created id ("/session/" ++ id)%string participantId))
    ∧ select_session id (db sv')
      = Some (Session.mk lobby (sanitize hostName) None now)
    ∧ select_participants id (db sv')
      = [Participant.mk participantId id (sanitize hostName) None false now]
    ∧ (∀ id', id' ≠ id →
         select_session id' (db sv') = select_session id' (db sv)
         ∧ select_participants id' (db sv') = select_participants id' (db sv))
    ∧ effects sv' = effects sv.
Proof.
  intros Hname Hid Hp Hfk. eexists. split.
  - unfold createSession, insert_session, insert_participant.
    rewrite bool_decide_eq_false_2 by done. rewrite Hid. cbn [participants].
    by rewrite (existsb_id_false _ _ Hp).
  - cbn [db set_db effects]. unfold select_session, select_participants.
    cbn [sessions participants]. split; [by rewrite lookup_insert_eq|].
    split.
    + rewrite filter_app. fold (select_participants id (db sv)).
      rewrite (no_rows_without_session id (db sv) Hfk Hid).
      by rewrite filter_cons, decide_True.
    + split; [|done]. intros id' Hne. split; [by rewrite lookup_insert_ne|].
      rewrite filter_app, filter_cons, decide_False by done.
      by rewrite filter_nil, app_nil_r.
Qed.

Lemma createSession_creates_witness :
  ∃ sv', createSession (Some (JStr " Alice ")) "s1" "p1" 7 (mkServer empty_store [])
         = (sv', Respond (Created "s1" "/session/s1" "p1"))
         ∧ select_participants "s1" (db sv')
           = [Participant.mk "p1" "s1" "Alice" None false 7].
Proof.
  destruct (createSession_creates (Some (JStr " Alice ")) "s1" "p1" 7
              (mkServer empty_store [])) as (sv' & Hr & _ & Hp & _).
  - discriminate.
  - reflexivity.
  - apply not_elem_of_nil.
  - intros p Hp. by apply elem_of_nil in Hp.
  - exists sv'. split; [exact Hr|exact Hp].
Defined.

(** X17: joining a session.  Under a name that [sanitize] keeps, POST
    /api/session/:id/join answers 404 and changes nothing when the
    session does not exist; when it exists, whatever its status, and the
    participant id is not in use, the new participant (not completed, no
    answers) is put at the end of the roster, the session row is
    untouched, participant_joined is emitted with the sanitized name, and
    the answer carries the session as read and the new roster. *)
Theorem joinSession_joins (id : string) (name : jsvalue) (participantId : string)
    (now : Z) (sv : server) :
  sanitize name ≠ EmptyString →
  (select_session id (db sv) = None →
   joinSession id name participantId now sv
   = (sv, Respond (Error 404 "Session not found")))
  ∧ (∀ session,
       select_session id (db sv) = Some session →
       participantId ∉ (Participant.id <$> participants (db sv)) →
       let joiner :=
         Participant.mk participantId id (sanitize name) None false now in
       ∃ sv',
         joinSession id name participantId now sv
         = (sv', Respond (Joined participantId session
                            (map roster_row (select_participants id (db sv')))))
         ∧ sessions (db sv') = sessions (db sv)
         ∧ participants (db sv') = participants (db sv) ++ [joiner]
         ∧ select_participants id (db sv') = select_participants id (db sv) ++ [joiner]
         ∧ effects sv'
           = effects sv ++ [Emit id (participant_joined (sanitize name))]).
Proof.
  intros Hname. split.
  - intros Hid. unfold joinSession.
    rewrite bool_decide_eq_false_2 by done. by rewrite Hid.
  - intros session Hid Hp joiner.
    exists (emit id (participant_joined (sanitize name))
              (set_db (mkStore (sessions (db sv))
                         (participants (db sv) ++ [joiner])) sv)).
    split.
    + unfold joinSession, insert_participant.
      rewrite bool_decide_eq_false_2 by done. rewrite Hid.
      rewrite (existsb_id_false _ _ Hp). reflexivity.
    + cbn [db set_db emit effects sessions participants].
      split; [done|]. split; [done|]. split; [|done].
      unfold select_participants. cbn [participants].
      rewrite filter_app. f_equal. by rewrite filter_cons, decide_True.
Qed.

Lemma joinSession_joins_witness :
  let sv := (createSession (Some (JStr "Alice")) "s1" "p1" 0
               (mkServer empty_store [])).1 in
  let alice := Participant.mk "p1" "s1" "Alice" None false 0 in
  let bob := Participant.mk "p2" "s1" "Bob &amp; Co" None false 1 in
  joinSession "s2" (Some (JStr " Bob & Co ")) "p2" 1 sv
  = (sv, Respond (Error 404 "Session not found"))
  ∧ ∃ sv',
      joinSession "s1" (Some (JStr " Bob & Co ")) "p2" 1 sv
      = (sv', Respond (Joined "p2" (Session.mk lobby "Alice" None 0)
                         [("p1", "Alice", false); ("p2", "Bob &amp; Co", false)]))
      ∧ participants (db sv') = [alice; bob]
      ∧ effects sv' = [Emit "s1" (participant_joined "Bob &amp; Co")].
Proof.
  intros sv alice bob. split.
  - apply (joinSession_joins "s2" (Some (JStr " Bob & Co ")) "p2" 1 sv);
      [discriminate|reflexivity].
  - destruct (joinSession_joins "s1" (Some (JStr " Bob & Co ")) "p2" 1 sv)
      as [_ Hjoin]; [discriminate|].
    destruct (Hjoin (Session.mk lobby "Alice" None 0) eq_refl)
      as (sv' & Hr & _ & Hrows & Hroster & Heff).
    + apply (bool_decide_unpack _). reflexivity.
    + exists sv'. rewrite Hroster in Hr.
      split; [exact Hr|]. split; [exact Hrows|exact Heff].
Defined.

Section LateJoinerFacts.
Context `{JSONRuntime}.

(** While some row of the session under another id is not completed,
    a submit does not complete the session. *)
Lemma incomplete_row_blocks_completion id q answers sv p :
  p ∈ participants (db sv) →
  Participant.session_id p = id →
  Participant.completed p = false →
  Participant.id p ≠ q →
  ∃ sv2 r,
    submitAnswers id q answers sv = (sv2, Respond r)
    ∧ (r = Error 404 "Participant not found" ∨ r = Submitted false)
    ∧ sessions (db sv2) = sessions (db sv)
    ∧ synthesized SubmitWaits id (effects sv2)
      = synthesized SubmitWaits id (effects sv).
Proof.
  intros Hin Hsid Hc Hq. unfold submitAnswers. cbv zeta.
  destruct (select_participant q id (db sv)) as [p0|]; [|by eauto 10].
  assert (forallb Participant.completed
            (select_participants id
               (update_answers (Some (JSON_stringify answers)) q (db sv)))
          = false) as ->.
  { apply forallb_not_completed, Exists_exists. exists p. split; [|done].
    apply list_elem_of_filter. split; [done|].
    apply list_elem_of_In, in_map_iff. exists p.
    split; [by rewrite bool_decide_eq_false_2|by apply list_elem_of_In]. }
  eexists _, _. split; [done|]. split; [by right|]. split; [done|].
  cbn. rewrite synthesized_app. cbn. lia.
Qed.

(** A row stays as it is through turns that are neither sweeps nor
    submits under its id. *)
Lemma run_row_untouched tr s i p :
  Forall (λ a, sweeps a = false ∧ submits_as (Participant.id p) a = false) tr →
  participants (db (srv s)) !! i = Some p →
  participants (db (srv (run tr s))) !! i = Some p.
Proof.
  intros Htr. revert s. induction Htr as [|a tr [Hw Hs] _ IH]; intros s Hp.
  - done.
  - destruct (step_participant_kept a s i p Hw Hp) as (p1 & Hp1 & _ & Hsame).
    rewrite (Hsame Hs) in Hp1. rewrite run_cons. by apply IH.
Qed.

Lemma joinSession_row id name participantId now sv sv1 session roster :
  joinSession id name participantId now sv
  = (sv1, Respond (Joined participantId session roster)) →
  participants (db sv1) !! length (participants (db sv))
  = Some (Participant.mk participantId id (sanitize name) None false now).
Proof.
  unfold joinSession, insert_participant. intros Hjoin.
  destruct (bool_decide _); [discriminate Hjoin|].
  destruct (select_session id (db sv)); [|discriminate Hjoin].
  destruct (existsb _ _); [discriminate Hjoin|].
  injection Hjoin as <- _ _. cbn.
  by rewrite lookup_app_r, Nat.sub_diag.
Qed.

End LateJoinerFacts.

(** X18: a late joiner holds the session open.  From the moment a
    participant has joined, and through any turns of the event loop
    that are neither a submit under the joiner's id nor a retention
    sweep, a submit by anyone else does not complete the session: it
    answers 404 or allCompleted = false, leaves every session row as it
    is, and does not call the synthesizer. *)
Theorem late_joiner_blocks_completion `{JSONRuntime} (id : string)
    (name : jsvalue) (participantId : string) (now : Z) (s : system)
    (sv1 : server) (session : Session.t)
    (roster : list (string * string * bool)) (tr : list action)
    (q : string) (answers : json) :
  joinSession id name participantId now (srv s)
  = (sv1, Respond (Joined participantId session roster)) →
  Forall (λ a, sweeps a = false ∧ submits_as participantId a = false) tr →
  q ≠ participantId →
  let sv := srv (run tr (step (Handle (JoinSession id name participantId now)) s)) in
  ∃ sv2 r,
    submitAnswers id q answers sv = (sv2, Respond r)
    ∧ (r = Error 404 "Participant not found" ∨ r = Submitted false)
    ∧ sessions (db sv2) = sessions (db sv)
    ∧ synthesized SubmitWaits id (effects sv2)
      = synthesized SubmitWaits id (effects sv).
Proof.
  intros Hjoin Htr Hq sv.
  pose proof (joinSession_row _ _ _ _ _ _ _ _ Hjoin) as Hrow.
  assert (srv (step (Handle (JoinSession id name participantId now)) s) = sv1)
    as Hstep by (cbn [step handle]; by rewrite Hjoin).
  rewrite <- Hstep in Hrow.
  apply (run_row_untouched tr) in Hrow; [|exact Htr].
  apply (incomplete_row_blocks_completion id q answers sv _
           (proj2 (list_elem_of_lookup _ _) (ex_intro _ _ Hrow)));
    [done|done|cbn; congruence].
Qed.

Lemma late_joiner_blocks_completion_witness :
  let s := @run JsonFragment.runtime
             [ Handle (CreateSession (Some (JStr "Alice")) "s1" "p1" 0) ] boot in
  let tr := [ Handle (StartQuiz "s1");
              Handle (SubmitAnswers "s1" "p1" (JObj []));
              Handle (GetSession "s1") ] in
  let sv := srv (@run JsonFragment.runtime tr
                   (@step JsonFragment.runtime
                      (Handle (JoinSession "s1" (Some (JStr "Bob")) "p2" 1)) s)) in
  ∃ sv2 r, @submitAnswers JsonFragment.runtime "s1" "p1" (JObj []) sv
           = (sv2, Respond r)
           ∧ (r = Error 404 "Participant not found" ∨ r = Submitted false)
           ∧ sessions (db sv2) = sessions (db sv).
Proof.
  intros s tr sv.
  destruct (@late_joiner_blocks_completion JsonFragment.runtime "s1"
              (Some (JStr "Bob")) "p2" 1 s
              (@joinSession "s1" (Some (JStr "Bob")) "p2" 1 (srv s)).1
              (Session.mk lobby "Alice" None 0)
              [("p1", "Alice", false); ("p2", "Bob", false)]
              tr "p1" (JObj []) eq_refl)
    as (sv2 & r & Hr & Hcase & Hs & _).
  - repeat constructor.
  - discriminate.
  - by exists sv2, r.
Defined.

Section MoreOutcomeFacts.
Context `{JSONRuntime}.

Lemma length_filter_all {A} (P : A → Prop) `{∀ x, Decision (P x)} (l : list A) :
  length (filter P l) = length l ↔ Forall P l.
Proof.
  induction l as [|x l IH]; [by split; [constructor|]|].
  rewrite filter_cons. pose proof (length_filter P l) as Hle.
  destruct (decide (P x)) as [Hx|Hx]; cbn.
  - rewrite Forall_cons. split.
    + intros [= Hl]. split; [done|]. by apply IH.
    + intros [_ Hl]. f_equal. by apply IH.
  - split; [lia|]. by intros [? _]%Forall_cons.
Qed.

Lemma select_completed_of_roster id d :
  select_completed id d
  = filter (λ p, Participant.completed p = true) (select_participants id d).
Proof.
  unfold select_completed, select_participants. rewrite list_filter_filter.
  apply list_filter_iff. intros p. tauto.
Qed.

End MoreOutcomeFacts.

(** X19: once a submission is accepted, closing early is possible.
    After a submit by a participant of the session, and whatever turns
    follow short of a retention sweep, the session has a completed
    participant, so POST /api/session/:id/close does not answer 400 "No
    completed participants". *)
Theorem close_after_submission `{JSONRuntime} (tr : list action) (s : system)
    (id q : string) (answers : json) (p : Participant.t) :
  select_participant q id (db (srv s)) = Some p →
  Forall (λ a, sweeps a = false) tr →
  select_completed id
    (db (srv (run tr (step (Handle (SubmitAnswers id q answers)) s)))) ≠ []
  ∧ (closeEarly id
       (srv (run tr (step (Handle (SubmitAnswers id q answers)) s)))).2
    ≠ Respond (Error 400 "No completed participants").
Proof.
  intros Hp Htr.
  destruct (select_participant_row _ _ _ _ Hp) as ([i Hi]%list_elem_of_lookup & Hq & Hsid).
  set (s1 := step (Handle (SubmitAnswers id q answers)) s).
  assert (participants (db (srv s1)) !! i
          = Some (record_answers (Some (JSON_stringify answers)) p)) as Hi1.
  { assert (srv s1 = (submitAnswers id q answers (srv s)).1) as ->.
    { unfold s1. cbn [step handle].
      destruct (submitAnswers id q answers (srv s)) as [sv' o]. by destruct o. }
    rewrite (submitAnswers_rows id q answers (srv s) p Hp). cbn.
    rewrite list_lookup_map, Hi. cbn. by rewrite bool_decide_eq_true_2. }
  destruct (run_participant_kept tr s1 i _ Htr Hi1)
    as (p' & Hp' & _ & Hsid' & _ & _ & Hdone).
  assert (p' ∈ select_completed id (db (srv (run tr s1)))) as Hin.
  { apply list_elem_of_filter. split.
    - split; [by rewrite Hsid'|by apply Hdone].
    - apply list_elem_of_lookup. eauto. }
  assert (select_completed id (db (srv (run tr s1))) ≠ []) as Hne.
  { intros Hnil. rewrite Hnil in Hin. by apply elem_of_nil in Hin. }
  split; [done|]. unfold closeEarly. cbv zeta.
  destruct (select_session id _); [|done].
  rewrite bool_decide_eq_false_2.
  - by destruct (participantData _).
  - by destruct (select_completed id _).
Qed.

Lemma close_after_submission_witness :
  let s := @run JsonFragment.runtime
             [ Handle (CreateSession (Some (JStr "Alice")) "s1" "p1" 0);
               Handle (JoinSession "s1" (Some (JStr "Bob")) "p2" 1) ] boot in
  select_completed "s1"
    (db (srv (@run JsonFragment.runtime [ Handle (StartQuiz "s1") ]
                (@step JsonFragment.runtime
                   (Handle (SubmitAnswers "s1" "p1" (JObj []))) s)))) ≠ [].
Proof.
  intros s.
  apply (@close_after_submission JsonFragment.runtime [ Handle (StartQuiz "s1") ]
           s "s1" "p1" (JObj []) (Participant.mk "p1" "s1" "Alice" None false 0)).
  - reflexivity.
  - repeat constructor.
Defined.

(** X20: the completed count that GET /api/session/:id reports is the
    number of rows that closing early would use; it never exceeds the
    size of the roster, and it equals it exactly when the completion
    check of the submit handler holds for the roster. *)
Theorem getSession_counts (id : string) (sv : server) (session : Session.t) :
  select_session id (db sv) = Some session →
  ∃ completedCount,
    getSession id sv
    = (sv, Respond (SessionInfo session
                      (map roster_row (select_participants id (db sv)))
                      completedCount))
    ∧ completedCount = length (select_completed id (db sv))
    ∧ completedCount ≤ length (select_participants id (db sv))
    ∧ (completedCount = length (select_participants id (db sv))
       ↔ forallb Participant.completed (select_participants id (db sv)) = true).
Proof.
  intros Hs. eexists. split; [by unfold getSession; rewrite Hs|].
  rewrite select_completed_of_roster. split; [done|].
  split; [apply length_filter|].
  by rewrite length_filter_all, forallb_completed.
Qed.

Lemma getSession_counts_witness :
  let alice := Participant.mk "p1" "s1" "Alice" (Some "{}"%string) true 0 in
  let bob := Participant.mk "p2" "s1" "Bob" None false 1 in
  let session := Session.mk collecting "Alice" None 0 in
  let sv := mkServer (mkStore {[ "s1" := session ]} [alice; bob]) [] in
  getSession "s1" sv
  = (sv, Respond (SessionInfo session
                    [("p1", "Alice", true); ("p2", "Bob", false)] 1)).
Proof.
  intros alice bob session sv.
  destruct (getSession_counts "s1" sv session eq_refl) as (n & -> & -> & _).
  reflexivity.
Defined.

(** X21: results round trip.  Once a suspended handler has been resumed
    on a session that exists, GET /api/session/:id/results answers the
    very result object that was announced with results_ready, with the
    session in status complete, provided the runtime parses back what
    it serialized for that object; while a session has no results, the
    same request answers results = null. *)
Theorem getResults_after_resume `{JSONRuntime} (k : pending)
    (result : completion) (sv : server) (x : Session.t) :
  select_session (on_session k) (db sv) = Some x →
  JSON_stringify (interpret (data k) result) ≠ EmptyString →
  JSON_parse (JSON_stringify (interpret (data k) result))
  = Some (interpret (data k) result) →
  let sv' := (resume k result sv).1 in
  ∃ x',
    getResults (on_session k) sv'
    = (sv', Respond (ResultsInfo x'
                       (map answer_row (select_participants (on_session k) (db sv)))
                       (Some (interpret (data k) result))))
    ∧ Session.status x' = complete
    ∧ effects sv'
      = effects sv ++ [Emit (on_session k)
                         (results_ready (interpret (data k) result))]
    ∧ (Session.results x = None →
       getResults (on_session k) sv
       = (sv, Respond (ResultsInfo x
                         (map answer_row (select_participants (on_session k) (db sv)))
                         None))).
Proof.
  intros Hx Hne Hrt sv'.
  exists (Session.mk complete (Session.host_name x)
            (Some (JSON_stringify (interpret (data k) result)))
            (Session.created_at x)).
  split; [|split; [|split]].
  - unfold getResults. subst sv'. cbn [resume fst db emit set_db].
    rewrite (select_session_update_results _ _ _ _ _ Hx). cbn [Session.results].
    destruct (JSON_stringify (interpret (data k) result)) eqn:Hs; [done|].
    by rewrite Hrt.
  - done.
  - done.
  - intros Hnone. unfold getResults. by rewrite Hx, Hnone.
Qed.

Lemma getResults_after_resume_witness :
  let alice := Participant.mk "p1" "s1" "Alice" (Some "{}"%string) true 0 in
  let session := Session.mk complete "Alice" None 0 in
  let sv := mkServer (mkStore {[ "s1" := session ]} [alice]) [] in
  let k := mkPending SubmitWaits "s1" [("Alice"%string, JObj [])] in
  ∃ x', @getResults JsonFragment.runtime "s1"
          (@resume JsonFragment.runtime k NoContent sv).1
        = ((@resume JsonFragment.runtime k NoContent sv).1,
           Respond (ResultsInfo x' [("Alice"%string, Some "{}"%string, true)]
                      (Some (result_unavailable [("Alice"%string, JObj [])])))).
Proof.
  intros alice session sv k.
  destruct (@getResults_after_resume JsonFragment.runtime k NoContent sv session)
    as (x' & Hr & _).
  - reflexivity.
  - discriminate.
  - vm_compute. reflexivity.
  - exists x'. exact Hr.
Defined.

(** X22: a submit must name a participant of the session in the URL.
    When no row has both the participant id and the session id of the
    request, even if the participant exists in another session, the
    submit answers 404 "Participant not found" and nothing is recorded
    or emitted. *)
Theorem submitAnswers_foreign_participant `{JSONRuntime} (id q : string)
    (answers : json) (sv : server) :
  (∀ p, p ∈ participants (db sv) →
        Participant.id p = q → Participant.session_id p ≠ id) →
  submitAnswers id q answers sv
  = (sv, Respond (Error 404 "Participant not found")).
Proof.
  intros Hno. unfold submitAnswers.
  destruct (select_participant q id (db sv)) as [p|] eqn:Hp; [|done].
  destruct (select_participant_row _ _ _ _ Hp) as (Hin & Hq & Hsid).
  by destruct (Hno p Hin Hq).
Qed.

Lemma submitAnswers_foreign_participant_witness :
  let alice := Participant.mk "p1" "s1" "Alice" None false 0 in
  let sv := mkServer
              (mkStore {[ "s1" := Session.mk lobby "Alice" None 0;
                          "s2" := Session.mk lobby "Bob" None 0 ]} [alice]) [] in
  @submitAnswers JsonFragment.runtime "s2" "p1" (JObj []) sv
  = (sv, Respond (Error 404 "Participant not found")).
Proof.
  intros alice sv.
  apply (@submitAnswers_foreign_participant JsonFragment.runtime).
  intros p Hp%list_elem_of_singleton _. by subst p.
Defined.

(** ** The quiz component *)

Section QuizComponentFacts.
Import MovieQuiz.

Lemma presses_snoc cs c q : presses (cs ++ [c]) q = press c (presses cs q).
Proof. unfold presses. by rewrite foldl_snoc. Qed.

Lemma press_movies c q : movies (press c q) = movies q.
Proof.
  unfold press. destruct (rendered c q); [|done].
  destruct c as [v| | |]; try done.
  - unfold handleVote. by destruct (currentMovie q).
  - unfold handlePrev. by case_bool_decide.
Qed.

Lemma isLastMovie_spec q :
  currentIndex q < length (movies q) →
  isLastMovie q = bool_decide (currentIndex q + 1 = length (movies q)).
Proof. intros Hi. unfold isLastMovie. apply bool_decide_ext. lia. Qed.

Lemma press_well_kept c q : well_kept q → well_kept (press c q).
Proof.
  intros (Hi & Hbefore & Hown). unfold press.
  destruct (rendered c q) eqn:Hr; [|done].
  destruct c as [v| | |]; [| | |done].
  - unfold handleVote, currentMovie.
    destruct (movies q !! currentIndex q) as [m|] eqn:Hm; [|done]. cbn.
    rewrite (isLastMovie_spec q Hi). split; [|split]; cbn.
    + case_bool_decide; lia.
    + intros j m' Hj Hm'. rewrite lookup_insert_is_Some'.
      destruct (decide (j = currentIndex q)) as [->|Hne].
      * left. congruence.
      * right. apply (Hbefore j); [|done]. case_bool_decide; lia.
    + intros k a [[<- <-]|[_ Ha]]%lookup_insert_Some; [|by apply Hown].
      split; [done|]. cbn. apply list_elem_of_lookup.
      exists (currentIndex q). by destruct m.
  - unfold handlePrev. case_bool_decide; [|done]. split; [|split]; cbn.
    + lia.
    + intros j m Hj Hm. apply (Hbefore j); [lia|done].
    + done.
  - cbn in Hr. apply andb_true_iff in Hr as [[_ Hans]%andb_true_iff Hlast].
    apply bool_decide_eq_true in Hans. apply negb_true_iff in Hlast.
    rewrite (isLastMovie_spec q Hi) in Hlast.
    apply bool_decide_eq_false in Hlast.
    unfold handleNext. split; [|split]; cbn.
    + lia.
    + intros j m Hj Hm. destruct (decide (j = currentIndex q)) as [->|Hne].
      * destruct Hans as [v Hv]. unfold currentAnswer, currentMovie in Hv.
        rewrite Hm in Hv. cbn in Hv.
        destruct (answers q !! m.1); [done|discriminate Hv].
      * apply (Hbefore j); [lia|done].
    + done.
Qed.

Lemma presses_well_kept cs ms :
  ms ≠ [] →
  movies (presses cs (loaded ms)) = ms ∧ well_kept (presses cs (loaded ms)).
Proof.
  intros Hms. induction cs as [|c cs [IHm IHw]] using rev_ind.
  - split; [done|]. split; [|split]; cbn.
    + destruct ms; [done|cbn; lia].
    + intros j m Hj. lia.
    + intros k a Ha. by apply lookup_empty_Some in Ha.
  - rewrite presses_snoc. split; [by rewrite press_movies|].
    by apply press_well_kept.
Qed.

Lemma size_list_to_set_le (l : list Z) :
  size (list_to_set l : gset Z) ≤ length l
  ∧ (size (list_to_set l : gset Z) = length l → NoDup l).
Proof.
  induction l as [|x l [IHle IHeq]]; [split; [done|constructor]|].
  rewrite list_to_set_cons, size_union_alt, size_singleton. cbn.
  pose proof (subseteq_size (list_to_set l ∖ {[x]}) (list_to_set l : gset Z)) as Hsub.
  assert (list_to_set l ∖ {[x]} ⊆ (list_to_set l : gset Z)) as Hincl
    by apply subseteq_difference_l, reflexivity.
  specialize (Hsub Hincl). split; [lia|]. intros Heq.
  assert (size (list_to_set l : gset Z) = length l) as Hl by lia.
  constructor; [|by apply IHeq].
  intros Hx%(elem_of_list_to_set (C:=gset Z)).
  assert (list_to_set l = {[x]} ∪ (list_to_set l ∖ {[x]}) :> gset Z) as Hsplit.
  { apply set_eq. intros y. rewrite elem_of_union, elem_of_difference,
      elem_of_singleton. destruct (decide (y = x)) as [->|]; tauto. }
  rewrite Hsplit, size_union, size_singleton in Hl; [lia|].
  apply disjoint_singleton_l, not_elem_of_difference. right.
  by apply elem_of_singleton.
Qed.

Lemma submit_rendered_complete q :
  well_kept q → rendered Submit q = true →
  NoDup (fst <$> movies q)
  ∧ ∀ m, m ∈ movies q → ∃ v, answers q !! m.1 = Some (m.1, m.2, v).
Proof.
  intros (Hi & _ & Hown) [_ Hall%bool_decide_eq_true]%andb_true_iff.
  set (ids := fst <$> movies q).
  assert (dom (answers q) ⊆ (list_to_set ids : gset Z)) as Hsub.
  { intros k [a Ha]%elem_of_dom. apply elem_of_list_to_set.
    destruct (Hown k a Ha) as [_ Hin].
    apply list_elem_of_fmap. by exists (k, a.1.2). }
  pose proof (subseteq_size _ _ Hsub) as Hsize.
  rewrite size_dom, Hall in Hsize.
  destruct (size_list_to_set_le ids) as [Hle Hnd].
  unfold ids in Hle at 2. rewrite length_fmap in Hle.
  assert (size (list_to_set ids : gset Z) = length ids) as Heq
    by (unfold ids at 2; rewrite length_fmap; lia).
  split; [by apply Hnd|].
  assert (dom (answers q) = (list_to_set ids : gset Z)) as Hdom.
  { apply set_subseteq_size_eq; [done|]. rewrite size_dom, Hall. lia. }
  intros m Hm.
  assert (m.1 ∈ dom (answers q)) as [a Ha]%elem_of_dom.
  { rewrite Hdom. apply elem_of_list_to_set, list_elem_of_fmap. by exists m. }
  destruct (Hown _ _ Ha) as [Hk Hin]. destruct a as [[k t] v].
  simpl in Hk, Hin. subst k.
  exists v. assert (t = m.2) as ->; [|exact Ha].
  (* with distinct ids, a listed movie is known by its id *)
  apply list_elem_of_lookup in Hin as [i Hi'].
  apply list_elem_of_lookup in Hm as [j Hj].
  assert (i = j) as ->.
  { eapply (NoDup_lookup ids); [by apply Hnd| |].
    - unfold ids. by rewrite list_lookup_fmap, Hi'.
    - unfold ids. by rewrite list_lookup_fmap, Hj. }
  rewrite Hj in Hi'. by injection Hi' as ->.
Qed.

End QuizComponentFacts.

(** X23: the quiz component keeps its state in order.  From the loaded
    state of a list of movies that is not empty, after any clicks on
    the buttons the list is the same, the current index is within it,
    every movie before the current one has an answer (no movie is
    skipped), and every answer sits under its own movie id and names a
    movie of the list. *)
Theorem quiz_component_well_kept (ms : list (Z * string))
    (cs : list MovieQuiz.click) :
  ms ≠ [] →
  MovieQuiz.movies (MovieQuiz.presses cs (MovieQuiz.loaded ms)) = ms
  ∧ MovieQuiz.well_kept (MovieQuiz.presses cs (MovieQuiz.loaded ms)).
Proof. apply presses_well_kept. Qed.

Lemma quiz_component_well_kept_witness :
  MovieQuiz.well_kept
    (MovieQuiz.presses
       [MovieQuiz.Vote MovieQuiz.love; MovieQuiz.Back; MovieQuiz.Next]
       (MovieQuiz.loaded [(603%Z, "The Matrix"%string); (13%Z, "Forrest Gump"%string)])).
Proof.
  apply (quiz_component_well_kept
           [(603%Z, "The Matrix"%string); (13%Z, "Forrest Gump"%string)]).
  discriminate.
Defined.

(** X24: what can be submitted is complete.  Whenever the component
    offers the submit button, the answers it hands to [onSubmit] hold a
    vote for every movie of the list, each under the movie's id and
    with its title, and the ids of the list are pairwise distinct; so
    for a list in which an id repeats the button is never offered. *)
Theorem quiz_submission_complete (ms : list (Z * string))
    (cs : list MovieQuiz.click) (payload : gmap Z MovieQuiz.answer) :
  ms ≠ [] →
  MovieQuiz.submitted (MovieQuiz.presses cs (MovieQuiz.loaded ms)) = Some payload →
  NoDup (fst <$> ms)
  ∧ ∀ m, m ∈ ms → ∃ v, payload !! m.1 = Some (m.1, m.2, v).
Proof.
  intros Hms. destruct (presses_well_kept cs ms Hms) as [Hm Hw].
  unfold MovieQuiz.submitted.
  destruct (MovieQuiz.rendered _ _) eqn:Hr; [|done]. intros [= <-].
  destruct (submit_rendered_complete _ Hw Hr) as [Hnd Hvotes].
  rewrite Hm in Hnd, Hvotes. by split.
Qed.

Lemma quiz_submission_complete_witness :
  ∃ v, ({[ 603%Z := (603%Z, "The Matrix"%string, MovieQuiz.love);
           13%Z := (13%Z, "Forrest Gump"%string, MovieQuiz.pass) ]}
        : gmap Z MovieQuiz.answer) !! 13%Z
       = Some (13%Z, "Forrest Gump"%string, v).
Proof.
  destruct (quiz_submission_complete
              [(603%Z, "The Matrix"%string); (13%Z, "Forrest Gump"%string)]
              [MovieQuiz.Vote MovieQuiz.love; MovieQuiz.Vote MovieQuiz.pass]
              {[ 603%Z := (603%Z, "The Matrix"%string, MovieQuiz.love);
                 13%Z := (13%Z, "Forrest Gump"%string, MovieQuiz.pass) ]})
    as [_ Hall].
  - discriminate.
  - reflexivity.
  - apply (Hall (13%Z, "Forrest Gump"%string)).
    apply list_elem_of_further, list_elem_of_here.
Defined.

Section QuizVotingFacts.
Import MovieQuiz.

Lemma votes_in_order (ms : list (Z * string)) (vs : list vote) :
  NoDup (fst <$> ms) → length vs ≤ length ms → ms ≠ [] →
  movies (presses (Vote <$> vs) (loaded ms)) = ms
  ∧ currentIndex (presses (Vote <$> vs) (loaded ms))
    = length vs `min` (length ms - 1)
  ∧ dom (answers (presses (Vote <$> vs) (loaded ms)))
    = (list_to_set (fst <$> take (length vs) ms) : gset Z)
  ∧ ∀ i m v, ms !! i = Some m → vs !! i = Some v →
             answers (presses (Vote <$> vs) (loaded ms)) !! m.1
             = Some (m.1, m.2, v).
Proof.
  intros Hnd Hlen Hms. induction vs as [|v vs IH] using rev_ind.
  - cbn. split; [done|]. split; [lia|]. split; [by rewrite dom_empty_L|].
    intros i m v _ Hv. by rewrite lookup_nil in Hv.
  - rewrite length_app in Hlen. cbn in Hlen.
    destruct IH as (Hm & Hi & Hdom & Hvotes); [lia|].
    rewrite fmap_app. change (Vote <$> [v]) with [Vote v].
    rewrite presses_snoc.
    set (q := presses (Vote <$> vs) (loaded ms)) in *.
    rewrite Nat.min_l in Hi by lia.
    destruct (lookup_lt_is_Some_2 ms (length vs)) as [m Hcur]; [lia|].
    assert (press (Vote v) q
            = mk ms (if bool_decide (length vs + 1 = length ms)
                     then length vs else length vs + 1)
                 (<[m.1 := (m.1, m.2, v)]> (answers q))) as ->.
    { unfold press. cbn [rendered]. unfold handleVote, currentMovie.
      rewrite Hm, Hi, Hcur. cbn. rewrite isLastMovie_spec by (rewrite Hm, Hi; lia).
      by rewrite Hm, Hi. }
    cbn. split; [done|]. split; [|split].
    + rewrite length_app. cbn. case_bool_decide; lia.
    + rewrite length_app. cbn. rewrite Nat.add_1_r.
      rewrite (take_S_r _ _ _ Hcur), fmap_app, list_to_set_app_L. cbn.
      rewrite dom_insert_L, Hdom, (right_id_L ∅ (∪)). apply (comm_L (∪)).
    + intros i m' v' Hm' Hv'.
      destruct (decide (i = length vs)) as [->|Hne].
      * rewrite Hcur in Hm'. injection Hm' as <-.
        rewrite lookup_app_r, Nat.sub_diag in Hv' by lia.
        injection Hv' as <-. by rewrite lookup_insert_eq.
      * assert (i < length vs) as Hlt.
        { apply lookup_lt_Some in Hv'. rewrite length_app in Hv'. cbn in Hv'. lia. }
        rewrite lookup_app_l in Hv' by done.
        rewrite lookup_insert_ne; [by apply (Hvotes i)|].
        intros Heq. apply Hne. symmetry.
        apply (NoDup_lookup (fst <$> ms) (length vs) i m.1 Hnd).
        -- by rewrite list_lookup_fmap, Hcur.
        -- by rewrite list_lookup_fmap, Hm', Heq.
Qed.

End QuizVotingFacts.

(** X25: voting through the quiz.  For a list of movies with pairwise
    distinct ids that is not empty, one vote per movie, in order, from
    the loaded state leaves the component offering the submit button,
    and what it hands to [onSubmit] holds for every movie exactly the
    vote given for it, under the movie's id and with its title, and
    nothing else. *)
Theorem quiz_votes_submitted (ms : list (Z * string))
    (vs : list MovieQuiz.vote) :
  ms ≠ [] → NoDup (fst <$> ms) → length vs = length ms →
  ∃ payload,
    MovieQuiz.submitted
      (MovieQuiz.presses (MovieQuiz.Vote <$> vs) (MovieQuiz.loaded ms))
    = Some payload
    ∧ size payload = length ms
    ∧ ∀ i m v, ms !! i = Some m → vs !! i = Some v →
               payload !! m.1 = Some (m.1, m.2, v).
Proof.
  intros Hms Hnd Hlen.
  destruct (votes_in_order ms vs Hnd ltac:(lia) Hms) as (Hm & Hi & Hdom & Hvotes).
  set (q := MovieQuiz.presses _ _) in *.
  assert (size (MovieQuiz.answers q) = length ms) as Hsize.
  { rewrite <- size_dom, Hdom, Hlen, firstn_all, size_list_to_set by done.
    by rewrite length_fmap. }
  exists (MovieQuiz.answers q). split; [|done].
  unfold MovieQuiz.submitted. cbn [MovieQuiz.rendered].
  assert (length ms ≠ 0) by (by destruct ms).
  rewrite isLastMovie_spec by (rewrite Hm, Hi; lia).
  unfold MovieQuiz.allAnswered. rewrite Hm, Hi, Hsize.
  rewrite !bool_decide_eq_true_2; [done|done|lia].
Qed.

Lemma quiz_votes_submitted_witness :
  ∃ payload,
    MovieQuiz.submitted
      (MovieQuiz.presses
         (MovieQuiz.Vote <$> [MovieQuiz.love; MovieQuiz.havent_seen])
         (MovieQuiz.loaded [(603%Z, "The Matrix"%string); (13%Z, "Forrest Gump"%string)]))
    = Some payload
    ∧ size payload = 2
    ∧ payload !! 13%Z = Some (13%Z, "Forrest Gump"%string, MovieQuiz.havent_seen).
Proof.
  destruct (quiz_votes_submitted
              [(603%Z, "The Matrix"%string); (13%Z, "Forrest Gump"%string)]
              [MovieQuiz.love; MovieQuiz.havent_seen])
    as (payload & Hsub & Hsize & Hvotes).
  - discriminate.
  - apply (bool_decide_unpack _). reflexivity.
  - reflexivity.
  - exists payload. split; [exact Hsub|]. split; [exact Hsize|].
    apply (Hvotes 1 (13%Z, "Forrest Gump"%string) MovieQuiz.havent_seen);
      reflexivity.
Defined.

(** ** The landing form and the name check of the server *)

Section LandingFacts.
Local Arguments String.append !_ _ / : simpl nomatch.

Lemma entity_of_space a : is_space a = true → entity_of a = String a EmptyString.
Proof.
  intros Ha. destruct (entity_of_shape a) as [[_ ->]|[[-> _]|[[-> _]|[[-> _]|[[-> _]|[-> _]]]]]];
    try done; vm_compute in Ha; discriminate Ha.
Qed.

Lemma entity_of_solid a :
  is_space a = false →
  ∃ b t, entity_of a = String b t ∧ is_space b = false
         ∧ all_chars (λ c, negb (is_space c)) t = true.
Proof.
  intros Ha. destruct (entity_of_shape a) as [[_ ->]|[[_ ->]|[[_ ->]|[[_ ->]|[[_ ->]|[_ ->]]]]]];
    eexists _, _; (split; [reflexivity|]); (split; [try reflexivity|reflexivity]).
  exact Ha.
Qed.

Lemma trim_end_solid_app t s :
  all_chars (λ c, negb (is_space c)) t = true →
  trim_end (t ++ s)%string = (t ++ trim_end s)%string.
Proof.
  induction t as [|c t IH]; [done|]. cbn [all_chars].
  intros [Hc Ht]%andb_true_iff. apply negb_true_iff in Hc.
  change (String c t ++ s)%string with (String c (t ++ s)%string).
  rewrite (trim_end_cons _ _ Hc), (IH Ht). reflexivity.
Qed.

Lemma escape_entities_nil s : escape_entities s = EmptyString → s = EmptyString.
Proof.
  destruct s as [|a s]; [done|]. rewrite escape_entities_cons.
  destruct (entity_of_shape a) as [[_ ->]|[[_ ->]|[[_ ->]|[[_ ->]|[[_ ->]|[_ ->]]]]]];
    discriminate.
Qed.

Lemma trim_start_escape s :
  trim_start (escape_entities s) = escape_entities (trim_start s).
Proof.
  induction s as [|a s IH]; [done|]. rewrite escape_entities_cons.
  destruct (is_space a) eqn:Ha.
  - rewrite (entity_of_space a Ha). simpl. by rewrite Ha.
  - destruct (entity_of_solid a Ha) as (b & t & Hab & Hb & _).
    simpl trim_start at 2. rewrite Ha, escape_entities_cons, Hab.
    simpl. by rewrite Hb.
Qed.

Lemma trim_end_escape s :
  trim_end (escape_entities s) = escape_entities (trim_end s).
Proof.
  induction s as [|a s IH]; [done|]. rewrite escape_entities_cons.
  destruct (is_space a) eqn:Ha.
  - rewrite (entity_of_space a Ha). simpl. rewrite IH, Ha.
    destruct (trim_end s) as [|c r] eqn:Hs; [done|].
    rewrite (escape_entities_cons a), (entity_of_space a Ha).
    destruct (escape_entities (String c r)) eqn:He; [|done].
    by apply escape_entities_nil in He.
  - destruct (entity_of_solid a Ha) as (b & t & Hab & Hb & Ht).
    rewrite (trim_end_cons _ _ Ha), escape_entities_cons, <- IH, Hab.
    apply (trim_end_solid_app (String b t)). cbn [all_chars].
    by rewrite Hb, Ht.
Qed.

Lemma trim_escape s : trim (escape_entities s) = escape_entities (trim s).
Proof. unfold trim. by rewrite trim_start_escape, trim_end_escape. Qed.

Lemma trim_start_trim_end s :
  trim_start (trim_end s) = trim_end (trim_start s).
Proof.
  induction s as [|a s IH]; [done|]. simpl trim_start at 2.
  destruct (is_space a) eqn:Ha.
  - rewrite <- IH. simpl. destruct (trim_end s); simpl; by rewrite Ha.
  - rewrite (trim_end_cons _ _ Ha). simpl. by rewrite Ha.
Qed.

Lemma trim_end_twice s : trim_end (trim_end s) = trim_end s.
Proof.
  induction s as [|a s IH]; [done|]. simpl.
  destruct (trim_end s) as [|c r] eqn:Hs.
  - destruct (is_space a) eqn:Ha; [done|]. simpl. by rewrite Ha.
  - change (trim_end (String a (String c r)))
      with (match trim_end (String c r) with
            | EmptyString => if is_space a then EmptyString else String a EmptyString
            | String b t => String a (String b t)
            end).
    by rewrite IH.
Qed.

Lemma trim_start_twice s : trim_start (trim_start s) = trim_start s.
Proof.
  induction s as [|a s IH]; [done|]. simpl.
  destruct (is_space a) eqn:Ha; [done|]. simpl. by rewrite Ha.
Qed.

Lemma trim_twice s : trim (trim s) = trim s.
Proof.
  unfold trim.
  by rewrite <- trim_start_trim_end, trim_end_twice, trim_start_trim_end,
    trim_start_twice.
Qed.

End LandingFacts.

(** X26: the landing form and the server agree on names.  The form
    holds a name back exactly when the server would answer 400 to it;
    and a name the form sends on (trimmed) is never turned down by the
    server's name check and is stored exactly as the text typed would
    have been. *)
Theorem landing_agrees_with_server (name : string) :
  match Landing_handleSubmit name with
  | None => sanitize (Some (JStr name)) = EmptyString
  | Some hostName =>
      sanitize (Some (JStr hostName)) ≠ EmptyString
      ∧ sanitize (Some (JStr hostName)) = sanitize (Some (JStr name))
  end.
Proof.
  unfold Landing_handleSubmit. cbn [sanitize]. case_bool_decide as Hname.
  - by apply sanitize_string_empty, trim_empty.
  - assert (sanitize_string (trim name) = sanitize_string name) as Hsame.
    { unfold sanitize_string. by rewrite !trim_escape, trim_twice. }
    split; [|done]. rewrite Hsame.
    intros Hs%sanitize_string_empty%trim_empty. by apply Hname.
Qed.
